(** * Peer assignment and command routing of the multi-bot music cluster

    A shallow embedding of the coordination core of the repository:

    - the command lock table of [src/orchestrator.js]
      ([acquireCommandLock], [releaseCommandLock], [hasCommandLock]);
    - the assignment records of [src/schemas/GuildAssignment.js]
      ([getOrCreateAssignment], [reassignGuild],
      [releaseInactiveAssignments], [touch], [deactivate]);
    - the class [LoadBalancer] (module [managers/LoadBalancer.js])
      ([_updateBotStatus], [_heartbeat], [assignBot], [_selectBot],
      [_selectByPriority], [_selectByRoundRobin]);
    - the per-command routing decision [shouldHandleCommand] of
      [src/events/Client/InteractionCreate.js].

    JavaScript [Map]s keyed by strings are finite maps, [Date.now()] is an
    explicit integer argument (milliseconds), mutable module state is passed
    explicitly, and the insertion-ordered [Collection] of bots is an
    association list. *)

From Stdlib Require Import ZArith Lia.
From stdpp Require Import base option list gmap strings pretty.

#[local] Open Scope Z_scope.
#[local] Set Warnings "-clear-no-such-hyp".

(** ** JavaScript values used by the code *)

(** Truthiness of a value of type [string | null]: [null] and the empty
    string are falsy. *)
Definition truthy (v : option string) : bool :=
  match v with
  | Some s => negb (bool_decide (s = EmptyString))
  | None => false
  end.

(** [x || 0] for a numeric field that may be [undefined]. *)
Definition orZero (v : option Z) : Z :=
  match v with
  | Some n => n
  | None => 0
  end.

(** [Array.prototype.sort(cmp)]: a stable sort driven by the sign of the
    comparator.  Insertion from the right keeps equal elements in their
    original order. *)
Fixpoint sortInsert {A} (cmp : A -> A -> Z) (x : A) (l : list A) : list A :=
  match l with
  | [] => [x]
  | y :: l' => if cmp x y <=? 0 then x :: y :: l' else y :: sortInsert cmp x l'
  end.

Definition jsSort {A} (cmp : A -> A -> Z) (l : list A) : list A :=
  foldr (sortInsert cmp) [] l.

(** A list in ascending order of the comparator: every element is at most
    every later one. *)
Fixpoint ascending {A} (cmp : A -> A -> Z) (l : list A) : Prop :=
  match l with
  | [] => True
  | x :: l' => (forall y, y ∈ l' -> cmp x y <= 0) /\ ascending cmp l'
  end.

(** ** The command lock table ([src/orchestrator.js]) *)

Module LockTable.

(** An entry of [commandLocks]: [{ botId, timestamp }]. *)
Record Lock := { botId : string; timestamp : Z }.

#[global] Instance Lock_eq_dec : EqDecision Lock.
Proof. solve_decision. Defined.

Definition LOCK_TIMEOUT : Z := 10000.

(** [now - existing.timestamp > LOCK_TIMEOUT] *)
Definition expired (now : Z) (existing : Lock) : bool :=
  now - timestamp existing >? LOCK_TIMEOUT.

(** [acquireCommandLock(guildId, botId)], with [now = Date.now()].
    Returns the boolean result and the table afterwards. *)
Definition acquireCommandLock (commandLocks : gmap string Lock)
    (guildId botId' : string) (now : Z) : bool * gmap string Lock :=
  let set (m : gmap string Lock) :=
    <[guildId := {| botId := botId'; timestamp := now |}]> m in
  match commandLocks !! guildId with
  | Some existing =>
      if expired now existing then
        (true, set (delete guildId commandLocks))
      else if negb (bool_decide (botId existing = botId')) then
        (false, commandLocks)
      else
        (true, commandLocks)
  | None => (true, set commandLocks)
  end.

(** [releaseCommandLock(guildId, botId)] *)
Definition releaseCommandLock (commandLocks : gmap string Lock)
    (guildId botId' : string) : gmap string Lock :=
  match commandLocks !! guildId with
  | Some existing =>
      if bool_decide (botId existing = botId') then delete guildId commandLocks
      else commandLocks
  | None => commandLocks
  end.

(** [hasCommandLock(guildId, botId)], with [now = Date.now()]. *)
Definition hasCommandLock (commandLocks : gmap string Lock)
    (guildId botId' : string) (now : Z) : bool * gmap string Lock :=
  match commandLocks !! guildId with
  | None => (false, commandLocks)
  | Some existing =>
      if expired now existing then (false, delete guildId commandLocks)
      else (bool_decide (botId existing = botId'), commandLocks)
  end.

(** *** Runs of lock operations *)

(** A sequence of [acquireCommandLock] calls on one guild, each by the
    given bot at the given instant; the results are returned in call
    order. *)
Fixpoint acquireAll (commandLocks : gmap string Lock) (guildId : string)
    (calls : list (string * Z)) : list bool * gmap string Lock :=
  match calls with
  | [] => ([], commandLocks)
  | (bot, now) :: rest =>
      let '(r, locks1) := acquireCommandLock commandLocks guildId bot now in
      let '(rs, locks2) := acquireAll locks1 guildId rest in
      (r :: rs, locks2)
  end.

(** Number of calls that returned [true]. *)
Definition successes (results : list bool) : nat :=
  length (filter (λ r, r = true) results).

(** The entry stored for the guild, if any, has not expired at [now]. *)
Definition freshAt (commandLocks : gmap string Lock) (guildId : string)
    (now : Z) : Prop :=
  match commandLocks !! guildId with
  | Some existing => expired now existing = false
  | None => True
  end.

(** No call of the run finds an expired entry. *)
Fixpoint noExpiry (commandLocks : gmap string Lock) (guildId : string)
    (calls : list (string * Z)) : Prop :=
  match calls with
  | [] => True
  | (bot, now) :: rest =>
      freshAt commandLocks guildId now /\
      noExpiry (acquireCommandLock commandLocks guildId bot now).2 guildId rest
  end.

(** No call after the first finds an expired entry (the first call may
    replace an entry that had already expired). *)
Definition noExpiryAfterFirst (commandLocks : gmap string Lock)
    (guildId : string) (calls : list (string * Z)) : Prop :=
  match calls with
  | [] => True
  | (bot, now) :: rest =>
      noExpiry (acquireCommandLock commandLocks guildId bot now).2 guildId rest
  end.

(** The timestamp of the entry in force once the first call, made at
    [first], has returned: the old entry's when it had not expired, else
    [first]. *)
Definition windowStart (commandLocks : gmap string Lock) (guildId : string)
    (first : Z) : Z :=
  match commandLocks !! guildId with
  | Some existing => if expired first existing then first else timestamp existing
  | None => first
  end.

(** The run stays within the lock timeout window: every call after the
    first is made no later than [LOCK_TIMEOUT] after the timestamp of the
    entry that the first call left in force. *)
Definition withinWindow (commandLocks : gmap string Lock) (guildId : string)
    (calls : list (string * Z)) : Prop :=
  match calls with
  | [] => True
  | (_, first) :: rest =>
      Forall (λ call, call.2 - windowStart commandLocks guildId first
                      <= LOCK_TIMEOUT) rest
  end.

(** The bot that validly holds the guild's lock at [now]. *)
Definition holder (commandLocks : gmap string Lock) (guildId : string)
    (now : Z) : option string :=
  match commandLocks !! guildId with
  | Some existing => if expired now existing then None else Some (botId existing)
  | None => None
  end.

(** At the first call the lock is free, or validly held by one of the
    callers. *)
Definition startHeldByCaller (commandLocks : gmap string Lock)
    (guildId : string) (calls : list (string * Z)) : Prop :=
  match calls with
  | [] => False
  | (_, now) :: _ =>
      match holder commandLocks guildId now with
      | Some owner => owner ∈ calls.*1
      | None => True
      end
  end.

(** At the first call the lock is validly held by a bot that is not among
    the callers. *)
Definition startHeldByOutsider (commandLocks : gmap string Lock)
    (guildId : string) (calls : list (string * Z)) : Prop :=
  match calls with
  | [] => False
  | (_, now) :: _ =>
      match holder commandLocks guildId now with
      | Some owner => owner ∉ calls.*1
      | None => False
      end
  end.

(** Operations on the table, for arbitrary interleavings. *)
Inductive LockOp :=
| OpAcquire (guildId bot : string) (now : Z)
| OpRelease (guildId bot : string)
| OpHasLock (guildId bot : string) (now : Z).

Definition stepOp (commandLocks : gmap string Lock) (op : LockOp)
    : gmap string Lock :=
  match op with
  | OpAcquire g b now => (acquireCommandLock commandLocks g b now).2
  | OpRelease g b => releaseCommandLock commandLocks g b
  | OpHasLock g b now => (hasCommandLock commandLocks g b now).2
  end.

Definition runOps (commandLocks : gmap string Lock) (ops : list LockOp)
    : gmap string Lock :=
  foldl stepOp commandLocks ops.

(** The bots for which [hasCommandLock] answers [true] at [now]. *)
Definition holdsLock (commandLocks : gmap string Lock) (guildId bot : string)
    (now : Z) : Prop :=
  (hasCommandLock commandLocks guildId bot now).1 = true.

End LockTable.

(** ** Assignment records ([src/schemas/GuildAssignment.js]) *)

Module GuildAssignment.

(** [assignmentReason]: ['auto' | 'manual' | 'failover' | 'priority']. *)
Inductive Reason := ReasonAuto | ReasonManual | ReasonFailover | ReasonPriority.

#[global] Instance Reason_eq_dec : EqDecision Reason.
Proof. solve_decision. Defined.

(** A document of the collection.  The primary key [_id] (the guild id)
    is the key of the store below; dates are milliseconds.  The
    [createdAt]/[updatedAt] bookkeeping that the document library keeps
    for [timestamps: true] is outside the schema's own fields and is not
    represented. *)
Record Assignment := {
  assignedBotId : string;
  assignedClientId : string;
  voiceChannelId : option string;
  textChannelId : option string;
  isActive : bool;
  assignedAt : Z;
  lastActivity : Z;
  assignmentReason : Reason;
  previousBotId : option string;
}.

#[global] Instance Assignment_eq_dec : EqDecision Assignment.
Proof. solve_decision. Defined.

(** [findById(guildId)] *)
Definition findById (store : gmap string Assignment) (guildId : string)
    : option Assignment :=
  store !! guildId.

(** [create({ _id, assignedBotId, assignedClientId, assignmentReason })]
    with the schema defaults. *)
Definition create (botId clientId : string) (reason : Reason) (now : Z)
    : Assignment :=
  {| assignedBotId := botId;
     assignedClientId := clientId;
     voiceChannelId := None;
     textChannelId := None;
     isActive := false;
     assignedAt := now;
     lastActivity := now;
     assignmentReason := reason;
     previousBotId := None |}.

(** [getOrCreateAssignment(guildId, botId, clientId, reason)] *)
Definition getOrCreateAssignment (store : gmap string Assignment)
    (guildId botId clientId : string) (reason : Reason) (now : Z)
    : Assignment * gmap string Assignment :=
  match findById store guildId with
  | Some assignment => (assignment, store)
  | None =>
      let assignment := create botId clientId reason now in
      (assignment, <[guildId := assignment]> store)
  end.

(** [reassignGuild(guildId, newBotId, newClientId, reason)] *)
Definition reassignGuild (store : gmap string Assignment)
    (guildId newBotId newClientId : string) (reason : Reason) (now : Z)
    : Assignment * gmap string Assignment :=
  match findById store guildId with
  | Some a =>
      let a' :=
        {| assignedBotId := newBotId;
           assignedClientId := newClientId;
           voiceChannelId := voiceChannelId a;
           textChannelId := textChannelId a;
           isActive := isActive a;
           assignedAt := now;
           lastActivity := lastActivity a;
           assignmentReason := reason;
           previousBotId := Some (assignedBotId a) |} in
      (a', <[guildId := a']> store)
  | None =>
      let a' := create newBotId newClientId reason now in
      (a', <[guildId := a']> store)
  end.

(** The update [$set: { isActive: false }] on one document. *)
Definition setInactive (a : Assignment) : Assignment :=
  {| assignedBotId := assignedBotId a;
     assignedClientId := assignedClientId a;
     voiceChannelId := voiceChannelId a;
     textChannelId := textChannelId a;
     isActive := false;
     assignedAt := assignedAt a;
     lastActivity := lastActivity a;
     assignmentReason := assignmentReason a;
     previousBotId := previousBotId a |}.

(** The filter [{ isActive: true, lastActivity: { $lt: inactiveTime } }]. *)
Definition matchesInactive (inactiveTime : Z) (a : Assignment) : bool :=
  isActive a && (lastActivity a <? inactiveTime).

(** What [updateMany] with this filter and update does to one document. *)
Definition sweepOne (inactiveTime : Z) (a : Assignment) : Assignment :=
  if matchesInactive inactiveTime a then setInactive a else a.

(** [releaseInactiveAssignments(inactiveThreshold = 300000)], with
    [now = Date.now()]: an [updateMany] over the collection. *)
Definition releaseInactiveAssignments (store : gmap string Assignment)
    (now : Z) (inactiveThreshold : option Z) : gmap string Assignment :=
  let inactiveThreshold := default 300000 inactiveThreshold in
  let inactiveTime := now - inactiveThreshold in
  sweepOne inactiveTime <$> store.

(** The instance method [touch()]: [this.lastActivity = new Date()]. *)
Definition touch (a : Assignment) (now : Z) : Assignment :=
  {| assignedBotId := assignedBotId a;
     assignedClientId := assignedClientId a;
     voiceChannelId := voiceChannelId a;
     textChannelId := textChannelId a;
     isActive := isActive a;
     assignedAt := assignedAt a;
     lastActivity := now;
     assignmentReason := assignmentReason a;
     previousBotId := previousBotId a |}.

(** The instance method [activate(voiceChannelId, textChannelId)]. *)
Definition activate (a : Assignment) (voiceChannel textChannel : option string)
    (now : Z) : Assignment :=
  {| assignedBotId := assignedBotId a;
     assignedClientId := assignedClientId a;
     voiceChannelId := voiceChannel;
     textChannelId := textChannel;
     isActive := true;
     assignedAt := assignedAt a;
     lastActivity := now;
     assignmentReason := assignmentReason a;
     previousBotId := previousBotId a |}.

(** The instance method [deactivate()]. *)
Definition deactivate (a : Assignment) (now : Z) : Assignment :=
  {| assignedBotId := assignedBotId a;
     assignedClientId := assignedClientId a;
     voiceChannelId := None;
     textChannelId := textChannelId a;
     isActive := false;
     assignedAt := assignedAt a;
     lastActivity := now;
     assignmentReason := assignmentReason a;
     previousBotId := previousBotId a |}.

(** [save()] of a document that was found under [guildId]. *)
Definition save (store : gmap string Assignment) (guildId : string)
    (a : Assignment) : gmap string Assignment :=
  <[guildId := a]> store.

End GuildAssignment.

(** ** Bot clients and the cluster *)

Module Cluster.

(** A player of the audio engine, as far as routing reads it:
    [player.voiceChannelId : string | null]. *)
Record Player := { voiceChannelId : option string }.

(** [client.lavalink]: the manager and its [players] map, keyed by guild. *)
Record LavalinkManager := { players : gmap string Player }.

(** The fields of [BotClient] ([structures/Client.js], not among the
    sources) that the load balancer and the router read or write.
    [lavalink] is absent until the audio engine is initialised;
    [playerCount] is the count cached by the last status update. *)
Record BotClient := {
  botId : string;
  botName : string;
  clientId : string;
  isMainBot : bool;
  isReady : bool;
  lavalink : option LavalinkManager;
  playerCount : option Z;
}.

(** [client.lavalink?.players?.get(guildId)] *)
Definition getPlayer (client : BotClient) (guildId : string) : option Player :=
  lm ← lavalink client; players lm !! guildId.

(** [client.lavalink?.players?.size || 0] *)
Definition livePlayerCount (client : BotClient) : Z :=
  match lavalink client with
  | Some lm => Z.of_nat (size (players lm))
  | None => 0
  end.

(** [client.playerCount = playerCount] *)
Definition setPlayerCount (client : BotClient) (n : Z) : BotClient :=
  {| botId := botId client;
     botName := botName client;
     clientId := clientId client;
     isMainBot := isMainBot client;
     isReady := isReady client;
     lavalink := lavalink client;
     playerCount := Some n |}.

(** [botCluster.get(id)] on the insertion-ordered collection. *)
Fixpoint get (botCluster : list (string * BotClient)) (id : string)
    : option BotClient :=
  match botCluster with
  | [] => None
  | (k, c) :: rest => if bool_decide (k = id) then Some c else get rest id
  end.

(** Every client is stored under its own [botId], and keys are unique
    ([botCluster.set(botConfig.id, client)]). *)
Definition wellFormed (botCluster : list (string * BotClient)) : Prop :=
  NoDup botCluster.*1 /\ Forall (λ kc, botId kc.2 = kc.1) botCluster.

End Cluster.

(** ** The load balancer (class [LoadBalancer]) *)

Module LoadBalancer.
Import Cluster.

(** The [status] enum of [schemas/BotStatus.js]. *)
Inductive Status := Available | InUse | Offline | Starting | Error.

#[global] Instance Status_eq_dec : EqDecision Status.
Proof. solve_decision. Defined.

(** [this.options] after the constructor. *)
Record Options := {
  strategy : string;
  heartbeatInterval : Z;
  maxPlayersPerBot : Z;
  staleThreshold : Z;
}.

(** The [options] argument of the constructor; every field may be
    missing. *)
Record RawOptions := {
  rawStrategy : option string;
  rawHeartbeatInterval : option Z;
  rawMaxPlayersPerBot : option Z;
  rawStaleThreshold : option Z;
}.

(** [n || d] on numbers: [undefined] and [0] select the default. *)
Definition numberOr (v : option Z) (d : Z) : Z :=
  match v with
  | Some n => if n =? 0 then d else n
  | None => d
  end.

(** [s || d] on strings. *)
Definition stringOr (v : option string) (d : string) : string :=
  match v with
  | Some s => if bool_decide (s = EmptyString) then d else s
  | None => d
  end.

(** The constructor's defaults. *)
Definition mkOptions (options : RawOptions) : Options :=
  {| strategy := stringOr (rawStrategy options) "priority";
     heartbeatInterval := numberOr (rawHeartbeatInterval options) 30000;
     maxPlayersPerBot := numberOr (rawMaxPlayersPerBot options) 100;
     staleThreshold := numberOr (rawStaleThreshold options) 60000 |}.

(** [_updateBotStatus(client)]: the client with its cached count
    refreshed, and the [status] and [playerCount] handed to
    [client.updateStatus] for persisting. *)
Definition _updateBotStatus (options : Options) (client : BotClient)
    : BotClient * (Status * Z) :=
  let playerCount := livePlayerCount client in
  let client := setPlayerCount client playerCount in
  let status :=
    if negb (isReady client) then Offline
    else if playerCount >=? maxPlayersPerBot options then InUse
    else if playerCount >? 0 then InUse
    else Available in
  (client, (status, playerCount)).

(** The loop of [_heartbeat] (and of [initialize]): every bot of the
    cluster is updated in turn.  The result is the cluster with the cached
    counts refreshed and, by bot id, what was handed to
    [client.updateStatus].  The [BotStatus.markStaleBotsOffline] that
    follows the loop works on the persisted records alone. *)
Definition _heartbeat (options : Options)
    (botCluster : list (string * BotClient))
    : list (string * BotClient) * list (string * (Status * Z)) :=
  (map (λ kc, (kc.1, (_updateBotStatus options kc.2).1)) botCluster,
   map (λ kc, (kc.1, (_updateBotStatus options kc.2).2)) botCluster).

(** The comparator of [_selectByPriority]. *)
Definition priorityCompare (a b : string * BotClient) : Z :=
  if isMainBot a.2 && negb (isMainBot b.2) then -1
  else if negb (isMainBot a.2) && isMainBot b.2 then 1
  else orZero (playerCount a.2) - orZero (playerCount b.2).

(** [_selectByPriority()] *)
Definition _selectByPriority (options : Options)
    (botCluster : list (string * BotClient)) : option (string * BotClient) :=
  let sortedBots :=
    jsSort priorityCompare (List.filter (λ kc, isReady kc.2) botCluster) in
  match List.find (λ kc, livePlayerCount kc.2 <? maxPlayersPerBot options)
                  sortedBots with
  | Some bot => Some bot
  | None => head sortedBots
  end.

(** [_selectByRoundRobin()] *)
Definition _selectByRoundRobin (botCluster : list (string * BotClient))
    : option (string * BotClient) :=
  let availableBots :=
    jsSort (λ a b, orZero (playerCount a.2) - orZero (playerCount b.2))
           (List.filter (λ kc, isReady kc.2) botCluster) in
  head availableBots.

(** [_selectBot()] *)
Definition _selectBot (options : Options)
    (botCluster : list (string * BotClient)) : option (string * BotClient) :=
  if bool_decide (strategy options = "priority") then
    _selectByPriority options botCluster
  else if bool_decide (strategy options = "roundRobin") then
    _selectByRoundRobin botCluster
  else _selectByPriority options botCluster.

(** What [assignBot] returns: [{ botId, client, assignment }]. *)
Record Assigned := {
  assignedBot : string;
  assignedClient : BotClient;
  assignment : GuildAssignment.Assignment;
}.

(** The calls [assignBot] makes, in order. *)
Inductive Call :=
| CallTouch (guildId : string)
| CallSelectBot
| CallGetOrCreate (guildId botId : string).

#[global] Instance Call_eq_dec : EqDecision Call.
Proof. solve_decision. Defined.

(** The guard of the sticky branch of [assignBot]: the existing
    assignment is active and its bot is in the cluster and ready. *)
Definition stickyOwner (botCluster : list (string * BotClient))
    (existingAssignment : option GuildAssignment.Assignment)
    : option (GuildAssignment.Assignment * BotClient) :=
  match existingAssignment with
  | Some a =>
      if GuildAssignment.isActive a then
        match get botCluster (GuildAssignment.assignedBotId a) with
        | Some existingClient =>
            if isReady existingClient then Some (a, existingClient) else None
        | None => None
        end
      else None
  | None => None
  end.

(** [assignBot(guildId)], with [now] the date of the call: the result
    ([None] for [null]), the store afterwards and the calls made. *)
Definition assignBot (options : Options)
    (botCluster : list (string * BotClient))
    (store : gmap string GuildAssignment.Assignment) (now : Z)
    (guildId : string)
    : option Assigned * gmap string GuildAssignment.Assignment * list Call :=
  let existingAssignment := GuildAssignment.findById store guildId in
  match stickyOwner botCluster existingAssignment with
  | Some (a, existingClient) =>
      let a := GuildAssignment.touch a now in
      (Some {| assignedBot := GuildAssignment.assignedBotId a;
               assignedClient := existingClient;
               assignment := a |},
       GuildAssignment.save store guildId a,
       [CallTouch guildId])
  | None =>
      match _selectBot options botCluster with
      | None => (None, store, [CallSelectBot])
      | Some (selectedId, selectedClient) =>
          let '(a, store) :=
            GuildAssignment.getOrCreateAssignment store guildId selectedId
              (clientId selectedClient)
              (match existingAssignment with
               | Some _ => GuildAssignment.ReasonFailover
               | None => GuildAssignment.ReasonAuto
               end)
              now in
          (Some {| assignedBot := selectedId;
                   assignedClient := selectedClient;
                   assignment := a |},
           store,
           [CallSelectBot; CallGetOrCreate guildId selectedId])
      end
  end.

(** The comparator of [_selectByRoundRobin]. *)
Definition loadCompare (a b : string * BotClient) : Z :=
  orZero (playerCount a.2) - orZero (playerCount b.2).

(** [releaseBot(guildId)], with [now] the date of the call. *)
Definition releaseBot (store : gmap string GuildAssignment.Assignment)
    (now : Z) (guildId : string) : gmap string GuildAssignment.Assignment :=
  match GuildAssignment.findById store guildId with
  | Some a => GuildAssignment.save store guildId (GuildAssignment.deactivate a now)
  | None => store
  end.

(** [isAssignedToBot(guildId, botId)] *)
Definition isAssignedToBot (store : gmap string GuildAssignment.Assignment)
    (guildId bot : string) : bool :=
  match GuildAssignment.findById store guildId with
  | None => false
  | Some a => bool_decide (GuildAssignment.assignedBotId a = bot)
  end.

(** [getAssignedBot(guildId)] *)
Definition getAssignedBot (botCluster : list (string * BotClient))
    (store : gmap string GuildAssignment.Assignment) (guildId : string)
    : option Assigned :=
  match GuildAssignment.findById store guildId with
  | None => None
  | Some a =>
      match get botCluster (GuildAssignment.assignedBotId a) with
      | Some client =>
          if isReady client then
            Some {| assignedBot := GuildAssignment.assignedBotId a;
                    assignedClient := client;
                    assignment := a |}
          else None
      | None => None
      end
  end.

(** What [forceAssign] returns: [{ success, message }]. *)
Record Forced := { success : bool; message : string }.

(** [forceAssign(guildId, targetBotId)], with [now] the date of the call:
    the result and the store afterwards. *)
Definition forceAssign (botCluster : list (string * BotClient))
    (store : gmap string GuildAssignment.Assignment) (now : Z)
    (guildId targetBotId : string)
    : Forced * gmap string GuildAssignment.Assignment :=
  match get botCluster targetBotId with
  | None =>
      ({| success := false;
          message := "Bot " +:+ targetBotId +:+ " not found" |}, store)
  | Some targetClient =>
      if negb (isReady targetClient) then
        ({| success := false;
            message := "Bot " +:+ targetBotId +:+ " is not ready" |}, store)
      else
        ({| success := true;
            message := "Guild assigned to " +:+ botName targetClient |},
         (GuildAssignment.reassignGuild store guildId targetBotId
            (clientId targetClient) GuildAssignment.ReasonManual now).2)
  end.

End LoadBalancer.

(** ** The routing decision ([src/events/Client/InteractionCreate.js]) *)

Module Router.
Import Cluster.

(** The values [Date.now()] returns inside the lock operations of one
    evaluation: in the [hasCommandLock] check, in the probing
    [acquireCommandLock] that follows it, and in the acquisition made by
    the branch that decides. *)
Record Clock := { atHasLock : Z; atProbe : Z; atAcquire : Z }.

(** [player && player.voiceChannelId && player.voiceChannelId !== userVoiceChannelId] *)
Definition inOtherChannel (player : option Player)
    (userVoiceChannelId : option string) : bool :=
  match player with
  | Some p =>
      truthy (voiceChannelId p) &&
      negb (bool_decide (voiceChannelId p = userVoiceChannelId))
  | None => false
  end.

(** [assignment?.isActive && assignment.assignedBotId !== botId] *)
Definition activeOnOtherBot (a : option GuildAssignment.Assignment)
    (bot : string) : bool :=
  match a with
  | Some a =>
      GuildAssignment.isActive a &&
      negb (bool_decide (GuildAssignment.assignedBotId a = bot))
  | None => false
  end.

(** [assignment?.isActive && assignment.assignedBotId === botId] *)
Definition activeOnBot (a : option GuildAssignment.Assignment)
    (bot : string) : bool :=
  match a with
  | Some a =>
      GuildAssignment.isActive a &&
      bool_decide (GuildAssignment.assignedBotId a = bot)
  | None => false
  end.

(** The lock check that opens the failover logic: [true] when the
    evaluation goes on, [false] when another bot holds the lock.  The
    orchestrator's functions exist exactly when the orchestrator does. *)
Definition lockCheck (orchestrator : option (list (string * BotClient)))
    (clock : Clock) (client : BotClient) (guildId : string)
    (commandLocks : gmap string LockTable.Lock)
    : bool * gmap string LockTable.Lock :=
  match orchestrator with
  | None => (true, commandLocks)
  | Some _ =>
      let '(has, locks1) :=
        LockTable.hasCommandLock commandLocks guildId (botId client)
          (atHasLock clock) in
      if negb has then
        let '(lockExists, locks2) :=
          LockTable.acquireCommandLock locks1 guildId (botId client)
            (atProbe clock) in
        if negb lockExists then (false, locks2)
        else (true, LockTable.releaseCommandLock locks2 guildId (botId client))
      else (true, locks1)
  end.

(** [if (orchestrator?.acquireCommandLock) orchestrator.acquireCommandLock(...)]
    with the result dropped. *)
Definition acquireIfPresent (orchestrator : option (list (string * BotClient)))
    (clock : Clock) (client : BotClient) (guildId : string)
    (commandLocks : gmap string LockTable.Lock) : gmap string LockTable.Lock :=
  match orchestrator with
  | Some _ =>
      (LockTable.acquireCommandLock commandLocks guildId (botId client)
         (atAcquire clock)).2
  | None => commandLocks
  end.

(** The first client of [orchestrator.bots] with [isMainBot]. *)
Definition findMainBot (bots : list (string * BotClient)) : option BotClient :=
  snd <$> List.find (λ kc, isMainBot kc.2) bots.

(** The availability test of the failover loop. *)
Definition isAvailable (guildId : string) (userVoiceChannelId : option string)
    (failover : string * BotClient) : bool :=
  match getPlayer failover.2 guildId with
  | None => true
  | Some failoverPlayer =>
      negb (truthy (voiceChannelId failoverPlayer)) ||
      bool_decide (voiceChannelId failoverPlayer = userVoiceChannelId)
  end.

(** "Available" read to the letter: no player for the guild, or a player
    in the requester's channel. *)
Definition noPlayerOrSameChannel (guildId : string)
    (userVoiceChannelId : option string) (failover : string * BotClient)
    : bool :=
  match getPlayer failover.2 guildId with
  | None => true
  | Some failoverPlayer =>
      bool_decide (voiceChannelId failoverPlayer = userVoiceChannelId)
  end.

Section Routing.

(** [String.prototype.localeCompare]: the collation of the host locale,
    of which only the sign is used. *)
Variable localeCompare : string -> string -> Z.

(** The non-main bots, sorted by bot id. *)
Definition failoverBots (bots : list (string * BotClient))
    : list (string * BotClient) :=
  jsSort (λ a b, localeCompare a.1 b.1)
         (List.filter (λ kc, negb (isMainBot kc.2)) bots).

(** The takeover step: the main bot is busy in another voice channel;
    the first available failover bot answers, if it gets the lock. *)
Definition takeOver (bots : list (string * BotClient)) (clock : Clock)
    (client : BotClient) (guildId : string)
    (userVoiceChannelId : option string)
    (commandLocks : gmap string LockTable.Lock)
    : bool * gmap string LockTable.Lock :=
  match List.find (isAvailable guildId userVoiceChannelId)
                  (failoverBots bots) with
  | Some failover =>
      if bool_decide (botId failover.2 = botId client) then
        let '(gotLock, locks1) :=
          LockTable.acquireCommandLock commandLocks guildId (botId client)
            (atAcquire clock) in
        if negb gotLock then (false, locks1) else (true, locks1)
      else (false, commandLocks)
  | None => (false, commandLocks)
  end.

(** The failover logic after the lock check and the own-player check:
    the assignment lookup and the takeover from the main bot. *)
Definition failoverDecision
    (orchestrator : option (list (string * BotClient)))
    (store : gmap string GuildAssignment.Assignment) (clock : Clock)
    (client : BotClient) (guildId : string)
    (userVoiceChannelId : option string)
    (commandLocks : gmap string LockTable.Lock)
    : bool * gmap string LockTable.Lock :=
  if activeOnBot (GuildAssignment.findById store guildId) (botId client) then
    (true, acquireIfPresent orchestrator clock client guildId commandLocks)
  else
    match orchestrator with
    | None => (false, commandLocks)
    | Some bots =>
        if negb (truthy userVoiceChannelId) then (false, commandLocks)
        else
          match findMainBot bots with
          | None => (false, commandLocks)
          | Some mainBotClient =>
              match lavalink mainBotClient with
              | None => (false, commandLocks)
              | Some lm =>
                  match players lm !! guildId with
                  | None => (false, commandLocks)
                  | Some mainBotPlayer =>
                      if negb (truthy (voiceChannelId mainBotPlayer)) then
                        (false, commandLocks)
                      else if bool_decide (voiceChannelId mainBotPlayer
                                           = userVoiceChannelId) then
                        (false, commandLocks)
                      else
                        takeOver bots clock client guildId
                          userVoiceChannelId commandLocks
                  end
              end
          end
    end.

(** [shouldHandleCommand(client, guildId, isMusicCommand, userVoiceChannelId)].

    [orchestrator] is [global.orchestrator] (its [bots]), absent when the
    process is not the cluster's.  [interleaved] is what the other bots'
    handlers do to the lock table while this evaluation is suspended at
    its [await GuildAssignment.findById(guildId)]. *)
Definition shouldHandleCommand
    (orchestrator : option (list (string * BotClient)))
    (store : gmap string GuildAssignment.Assignment)
    (interleaved : gmap string LockTable.Lock -> gmap string LockTable.Lock)
    (clock : Clock) (client : BotClient) (guildId : string)
    (isMusicCommand : bool) (userVoiceChannelId : option string)
    (commandLocks : gmap string LockTable.Lock)
    : bool * gmap string LockTable.Lock :=
  if isMainBot client then
    if isMusicCommand && truthy userVoiceChannelId &&
       inOtherChannel (getPlayer client guildId) userVoiceChannelId then
      (false, commandLocks)
    else if isMusicCommand then
      let commandLocks := interleaved commandLocks in
      if activeOnOtherBot (GuildAssignment.findById store guildId)
           (botId client) then
        (false, commandLocks)
      else
        (true, acquireIfPresent orchestrator clock client guildId commandLocks)
    else (true, commandLocks)
  else if negb isMusicCommand then (false, commandLocks)
  else
    let '(goOn, commandLocks) :=
      lockCheck orchestrator clock client guildId commandLocks in
    if negb goOn then (false, commandLocks)
    else
      let existingPlayer := getPlayer client guildId in
      if truthy userVoiceChannelId &&
         inOtherChannel existingPlayer userVoiceChannelId then
        (false, commandLocks)
      else if truthy userVoiceChannelId &&
              match existingPlayer with
              | Some p => truthy (voiceChannelId p)
              | None => false
              end then
        (true, acquireIfPresent orchestrator clock client guildId commandLocks)
      else
        failoverDecision orchestrator store clock client guildId
          userVoiceChannelId (interleaved commandLocks).

(** What the comparator must be for "ascending identifier order" to name
    one order of the cluster's bots: total and transitive, and never
    ranking two different bot ids as equal. *)
Definition ordersIds (ids : list string) : Prop :=
  (forall a b, localeCompare a b <= 0 \/ localeCompare b a <= 0) /\
  (forall a b c, localeCompare a b <= 0 -> localeCompare b c <= 0 ->
                 localeCompare a c <= 0) /\
  (forall a b, a ∈ ids -> b ∈ ids ->
               localeCompare a b <= 0 -> localeCompare b a <= 0 -> a = b).

(** The routing rule in the specification's words, for a given reading
    [available] of "available for this key": the bot [id] is the first, in
    ascending identifier order, of the non-main bots that are available. *)
Definition firstAvailableFailover (available : string * BotClient -> bool)
    (bots : list (string * BotClient)) (id : string) : Prop :=
  (exists c, (id, c) ∈ bots /\ isMainBot c = false /\ available (id, c) = true) /\
  (forall id' c', (id', c') ∈ bots -> isMainBot c' = false ->
                  available (id', c') = true -> localeCompare id id' <= 0).

End Routing.

(** Comparison of two strings by their characters' codes: an instance of
    the collation for examples (on the configured ids [bot-1], [bot-2],
    ... up to [bot-9] every collation agrees with it). *)
Definition codeCompare (a b : string) : Z :=
  match String.compare a b with
  | Lt => -1
  | Eq => 0
  | Gt => 1
  end.

End Router.

(** ** Persisted bot status ([src/schemas/BotStatus.js]) *)

Module BotStatus.
Import LoadBalancer.

(** A document of the collection, keyed by the bot id ([_id]); numbers
    are integers and dates are milliseconds. *)
Record Doc := {
  name : string;
  clientId : string;
  status : Status;
  isMain : bool;
  playerCount : Z;
  guildCount : Z;
  memoryUsage : Z;
  cpuUsage : Z;
  uptime : Z;
  ping : Z;
  lastHeartbeat : Z;
  startedAt : option Z;
  lavalinkConnected : bool;
  connectedNodeId : option string;
  errorMessage : option string;
}.

#[global] Instance Doc_eq_dec : EqDecision Doc.
Proof. solve_decision. Defined.

(** The document with [status] and [playerCount] replaced. *)
Definition withLoad (d : Doc) (newStatus : Status) (count : Z) : Doc :=
  {| name := name d; clientId := clientId d; status := newStatus;
     isMain := isMain d; playerCount := count; guildCount := guildCount d;
     memoryUsage := memoryUsage d; cpuUsage := cpuUsage d; uptime := uptime d;
     ping := ping d; lastHeartbeat := lastHeartbeat d; startedAt := startedAt d;
     lavalinkConnected := lavalinkConnected d;
     connectedNodeId := connectedNodeId d; errorMessage := errorMessage d |}.

(** The filter
    [{ lastHeartbeat: { $lt: staleTime }, status: { $nin: ['Offline', 'Error'] } }]. *)
Definition matchesStale (staleTime : Z) (d : Doc) : bool :=
  (lastHeartbeat d <? staleTime) &&
  negb (bool_decide (status d = Offline \/ status d = Error)).

(** [markStaleBotsOffline(staleThreshold = 60000)], with [now = Date.now()]. *)
Definition markStaleBotsOffline (statuses : gmap string Doc) (now : Z)
    (staleThreshold : option Z) : gmap string Doc :=
  let staleThreshold := default 60000 staleThreshold in
  let staleTime := now - staleThreshold in
  (λ d, if matchesStale staleTime d then withLoad d Offline (playerCount d) else d)
    <$> statuses.

(** The instance method [incrementPlayerCount()]. *)
Definition incrementPlayerCount (d : Doc) : Doc :=
  let count := playerCount d + 1 in
  if bool_decide (status d = Available) && (count >? 0) then withLoad d InUse count
  else withLoad d (status d) count.

(** The instance method [decrementPlayerCount()]. *)
Definition decrementPlayerCount (d : Doc) : Doc :=
  let count := Z.max 0 (playerCount d - 1) in
  if bool_decide (status d = InUse) && (count =? 0) then withLoad d Available count
  else withLoad d (status d) count.

(** The counts and the two load statuses agree: an [Available] bot has no
    player, an [InUse] bot has at least one, and no count is negative. *)
Definition consistent (d : Doc) : Prop :=
  0 <= playerCount d /\
  (status d = Available -> playerCount d = 0) /\
  (status d = InUse -> 0 < playerCount d).

End BotStatus.

(** ** Session bookkeeping on the assignment store *)

Module Sessions.

(** The assignment step of the play command ([commands/music/Play.js]),
    taken when the bot creates a player: [getOrCreateAssignment], then
    [findById] and [activate(voiceChannel.id, ctx.channel.id)]. *)
Definition startSession (store : gmap string GuildAssignment.Assignment)
    (now : Z) (guildId botId clientId : string)
    (voiceChannel textChannel : string)
    : gmap string GuildAssignment.Assignment :=
  let store :=
    (GuildAssignment.getOrCreateAssignment store guildId botId clientId
       GuildAssignment.ReasonAuto now).2 in
  match GuildAssignment.findById store guildId with
  | Some a =>
      GuildAssignment.save store guildId
        (GuildAssignment.activate a (Some voiceChannel) (Some textChannel) now)
  | None => store
  end.

(** [_deactivateAssignment(guildId)] of the voice state handler, which is
    also the assignment step of the stop command. *)
Definition deactivateAssignment (store : gmap string GuildAssignment.Assignment)
    (now : Z) (guildId : string) : gmap string GuildAssignment.Assignment :=
  match GuildAssignment.findById store guildId with
  | Some a => GuildAssignment.save store guildId (GuildAssignment.deactivate a now)
  | None => store
  end.

(** [assignment.voiceChannelId = channelId] *)
Definition setVoiceChannel (a : GuildAssignment.Assignment)
    (channel : option string) : GuildAssignment.Assignment :=
  {| GuildAssignment.assignedBotId := GuildAssignment.assignedBotId a;
     GuildAssignment.assignedClientId := GuildAssignment.assignedClientId a;
     GuildAssignment.voiceChannelId := channel;
     GuildAssignment.textChannelId := GuildAssignment.textChannelId a;
     GuildAssignment.isActive := GuildAssignment.isActive a;
     GuildAssignment.assignedAt := GuildAssignment.assignedAt a;
     GuildAssignment.lastActivity := GuildAssignment.lastActivity a;
     GuildAssignment.assignmentReason := GuildAssignment.assignmentReason a;
     GuildAssignment.previousBotId := GuildAssignment.previousBotId a |}.

(** What [_handleBotVoiceChange(oldState, newState, player)] of
    [events/Client/voiceStateUpdate.js] does to the assignment store:
    [oldChannel] and [newChannel] are the two states' [channelId],
    [hasPlayer] tells whether the bot has a player for the guild. *)
Definition handleBotVoiceChange (store : gmap string GuildAssignment.Assignment)
    (now : Z) (guildId : string) (oldChannel newChannel : option string)
    (hasPlayer : bool) : gmap string GuildAssignment.Assignment :=
  if truthy oldChannel && negb (truthy newChannel) then
    deactivateAssignment store now guildId
  else if truthy oldChannel && truthy newChannel &&
          negb (bool_decide (oldChannel = newChannel)) then
    if hasPlayer then
      match GuildAssignment.findById store guildId with
      | Some a => GuildAssignment.save store guildId (setVoiceChannel a newChannel)
      | None => store
      end
    else store
  else if negb (truthy oldChannel) && truthy newChannel then
    match GuildAssignment.findById store guildId with
    | Some a =>
        GuildAssignment.save store guildId
          (GuildAssignment.activate a newChannel (GuildAssignment.textChannelId a) now)
    | None => store
    end
  else store.

(** The writes to the assignment store. *)
Inductive StoreOp :=
| OpAssignBot (options : LoadBalancer.Options)
    (botCluster : list (string * Cluster.BotClient)) (guildId : string)
| OpReleaseBot (guildId : string)
| OpForceAssign (botCluster : list (string * Cluster.BotClient))
    (guildId targetBotId : string)
| OpSweep (threshold : option Z)
| OpStartSession (guildId botId clientId voiceChannel textChannel : string)
| OpDeactivate (guildId : string)
| OpVoiceChange (guildId : string) (oldChannel newChannel : option string)
    (hasPlayer : bool).

(** One write, made at time [now]. *)
Definition applyOp (store : gmap string GuildAssignment.Assignment)
    (timed : Z * StoreOp) : gmap string GuildAssignment.Assignment :=
  let now := timed.1 in
  match timed.2 with
  | OpAssignBot options botCluster g =>
      (LoadBalancer.assignBot options botCluster store now g).1.2
  | OpReleaseBot g => LoadBalancer.releaseBot store now g
  | OpForceAssign botCluster g target =>
      (LoadBalancer.forceAssign botCluster store now g target).2
  | OpSweep threshold =>
      GuildAssignment.releaseInactiveAssignments store now threshold
  | OpStartSession g bot cid vc tc => startSession store now g bot cid vc tc
  | OpDeactivate g => deactivateAssignment store now g
  | OpVoiceChange g old new hasPlayer =>
      handleBotVoiceChange store now g old new hasPlayer
  end.

(** Two versions of a row with the same ownership record: owner, client
    id, reason, date of assignment and previous owner. *)
Definition sameOwner (a a' : GuildAssignment.Assignment) : Prop :=
  GuildAssignment.assignedBotId a' = GuildAssignment.assignedBotId a /\
  GuildAssignment.assignedClientId a' = GuildAssignment.assignedClientId a /\
  GuildAssignment.assignmentReason a' = GuildAssignment.assignmentReason a /\
  GuildAssignment.assignedAt a' = GuildAssignment.assignedAt a /\
  GuildAssignment.previousBotId a' = GuildAssignment.previousBotId a.

Definition isForceAssign (op : StoreOp) : bool :=
  match op with
  | OpForceAssign _ _ _ => true
  | _ => false
  end.

End Sessions.

(** ** The bot configurations ([config.js]) *)

Module Config.

(** One entry of [config.bots]. *)
Record BotConfig := {
  id : string;
  token : string;
  clientId : string;
  name : string;
  isMain : bool;
}.

#[global] Instance BotConfig_eq_dec : EqDecision BotConfig.
Proof. solve_decision. Defined.

(** The variable name [BOT${i}<suffix>]. *)
Definition botKey (i : nat) (suffix : string) : string :=
  "BOT" +:+ pretty i +:+ suffix.

(** The loop of [parseBotConfigs()] from index [i] on, over the
    environment [process.env]; [None] when [fuel] iterations do not reach
    the end of the loop. *)
Fixpoint scanBots (fuel : nat) (env : gmap string string) (i : nat)
    : option (list BotConfig) :=
  match fuel with
  | O => None
  | S fuel =>
      if truthy (env !! botKey i "_TOKEN") then
        let token := default EmptyString (env !! botKey i "_TOKEN") in
        let clientId := env !! botKey i "_CLIENT_ID" in
        let name :=
          LoadBalancer.stringOr (env !! botKey i "_NAME") ("Bot-" +:+ pretty i) in
        let found :=
          if truthy clientId then
            [{| id := "bot-" +:+ pretty i;
                token := token;
                clientId := default EmptyString clientId;
                name := name;
                isMain := bool_decide (i = 1%nat) |}]
          else [] in
        rest ← scanBots fuel env (S i);
        Some (found ++ rest)
      else Some []
  end.

(** [parseBotConfigs()] *)
Definition parseBotConfigs (fuel : nat) (env : gmap string string)
    : option (list BotConfig) :=
  bots ← scanBots fuel env 1;
  if bool_decide (bots = []) && truthy (env !! "TOKEN") then
    Some [{| id := "bot-1";
             token := default EmptyString (env !! "TOKEN");
             clientId := LoadBalancer.stringOr (env !! "CLIENT_ID") EmptyString;
             name := LoadBalancer.stringOr (env !! "BOT_NAME") "MusicBot";
             isMain := true |}]
  else Some bots.

(** An environment with a complete first bot, a second bot without client
    id, no third bot, a complete fourth bot and the legacy [TOKEN]. *)
Definition sampleEnv : gmap string string :=
  list_to_map
    [("BOT1_TOKEN", "t1"); ("BOT1_CLIENT_ID", "c1"); ("BOT2_TOKEN", "t2");
     ("BOT4_TOKEN", "t4"); ("BOT4_CLIENT_ID", "c4"); ("TOKEN", "legacy")].

(** The one bot that [parseBotConfigs] configures from [sampleEnv]. *)
Definition sampleBot : BotConfig :=
  {| id := "bot-1"; token := "t1"; clientId := "c1"; name := "Bot-1";
     isMain := true |}.

End Config.

(** ** Persisted player state ([src/schemas/Player.js]) *)

Module PlayerStore.

(** [loopMode]: ['off' | 'track' | 'queue']. *)
Inductive LoopMode := LoopOff | LoopTrack | LoopQueue.

(** A document of the collection, keyed by the guild id ([_id]).  [Track]
    and [Filters] stand for the serialized values of type [Mixed]. *)
Record Doc (Track Filters : Type) := {
  botId : string;
  voiceChannelId : option string;
  textChannelId : option string;
  volume : Z;
  loopMode : LoopMode;
  paused : bool;
  twentyFourSeven : bool;
  autoPlay : bool;
  position : Z;
  currentTrack : option Track;
  queue : list Track;
  previousTracks : list Track;
  messageId : option string;
  requesterId : option string;
  filters : Filters;
  nodeId : option string;
  sessionId : option string;
  destroyed : bool;
  lastUpdated : Z;
}.

Arguments botId {Track Filters} _.
Arguments voiceChannelId {Track Filters} _.
Arguments textChannelId {Track Filters} _.
Arguments volume {Track Filters} _.
Arguments loopMode {Track Filters} _.
Arguments paused {Track Filters} _.
Arguments twentyFourSeven {Track Filters} _.
Arguments autoPlay {Track Filters} _.
Arguments position {Track Filters} _.
Arguments currentTrack {Track Filters} _.
Arguments queue {Track Filters} _.
Arguments previousTracks {Track Filters} _.
Arguments messageId {Track Filters} _.
Arguments requesterId {Track Filters} _.
Arguments filters {Track Filters} _.
Arguments nodeId {Track Filters} _.
Arguments sessionId {Track Filters} _.
Arguments destroyed {Track Filters} _.
Arguments lastUpdated {Track Filters} _.

(** The [playerData] that [savePlayerState] of the Lavalink handler hands
    to [saveState]. *)
Record PlayerData (Track : Type) := {
  dataBotId : string;
  dataVoiceChannelId : option string;
  dataTextChannelId : option string;
  dataVolume : Z;
  dataLoopMode : LoopMode;
  dataPaused : bool;
  dataTwentyFourSeven : bool;
  dataAutoPlay : bool;
  dataPosition : Z;
  dataCurrentTrack : option Track;
  dataQueue : list Track;
  dataNodeId : option string;
  dataDestroyed : bool;
}.

Arguments dataBotId {Track} _.
Arguments dataVoiceChannelId {Track} _.
Arguments dataTextChannelId {Track} _.
Arguments dataVolume {Track} _.
Arguments dataLoopMode {Track} _.
Arguments dataPaused {Track} _.
Arguments dataTwentyFourSeven {Track} _.
Arguments dataAutoPlay {Track} _.
Arguments dataPosition {Track} _.
Arguments dataCurrentTrack {Track} _.
Arguments dataQueue {Track} _.
Arguments dataNodeId {Track} _.
Arguments dataDestroyed {Track} _.

Section Documents.
Context {Track Filters : Type}.

(** The default of [filters], the empty object. *)
Variable noFilters : Filters.

(** The fields that [saveState] does not set, by their schema defaults
    (for an upsert) or as the existing document has them. *)
Definition keptFields (existing : option (Doc Track Filters))
    : list Track * option string * option string * Filters * option string :=
  match existing with
  | Some d => (previousTracks d, messageId d, requesterId d, filters d, sessionId d)
  | None => ([], None, None, noFilters, None)
  end.

(** [saveState(guildId, playerData)], with [now] the date of the call: an
    upsert that sets the fields of [playerData] and [lastUpdated]. *)
Definition saveState (players : gmap string (Doc Track Filters)) (now : Z)
    (guildId : string) (data : PlayerData Track)
    : gmap string (Doc Track Filters) :=
  let '(previous, message, requester, filt, session) :=
    keptFields (players !! guildId) in
  <[guildId :=
      {| botId := dataBotId data;
         voiceChannelId := dataVoiceChannelId data;
         textChannelId := dataTextChannelId data;
         volume := dataVolume data;
         loopMode := dataLoopMode data;
         paused := dataPaused data;
         twentyFourSeven := dataTwentyFourSeven data;
         autoPlay := dataAutoPlay data;
         position := dataPosition data;
         currentTrack := dataCurrentTrack data;
         queue := dataQueue data;
         previousTracks := previous;
         messageId := message;
         requesterId := requester;
         filters := filt;
         nodeId := dataNodeId data;
         sessionId := session;
         destroyed := dataDestroyed data;
         lastUpdated := now |}]> players.

(** [loadState(guildId)] *)
Definition loadState (players : gmap string (Doc Track Filters))
    (guildId : string) : option (Doc Track Filters) :=
  match players !! guildId with
  | Some state => if destroyed state then None else Some state
  | None => None
  end.

(** [findActiveByBot(botId)]: the matching documents, by guild id. *)
Definition findActiveByBot (players : gmap string (Doc Track Filters))
    (bot : string) : gmap string (Doc Track Filters) :=
  filter (λ kd, botId kd.2 = bot /\ destroyed kd.2 = false) players.

(** [countActiveByBot(botId)] *)
Definition countActiveByBot (players : gmap string (Doc Track Filters))
    (bot : string) : nat :=
  size (findActiveByBot players bot).

(** The update of [markDestroyed] on one document. *)
Definition destroyedDoc (d : Doc Track Filters) (now : Z) : Doc Track Filters :=
  {| botId := botId d;
     voiceChannelId := voiceChannelId d;
     textChannelId := textChannelId d;
     volume := volume d;
     loopMode := loopMode d;
     paused := paused d;
     twentyFourSeven := twentyFourSeven d;
     autoPlay := autoPlay d;
     position := 0;
     currentTrack := None;
     queue := [];
     previousTracks := previousTracks d;
     messageId := messageId d;
     requesterId := requesterId d;
     filters := filters d;
     nodeId := nodeId d;
     sessionId := sessionId d;
     destroyed := true;
     lastUpdated := now |}.

(** [markDestroyed(guildId)], with [now] the date of the call: an update
    without upsert. *)
Definition markDestroyed (players : gmap string (Doc Track Filters)) (now : Z)
    (guildId : string) : gmap string (Doc Track Filters) :=
  match players !! guildId with
  | Some d => <[guildId := destroyedDoc d now]> players
  | None => players
  end.

(** [cleanupDestroyed(olderThan = 86400000)], with [now = Date.now()]: the
    collection after the [deleteMany]. *)
Definition cleanupDestroyed (players : gmap string (Doc Track Filters))
    (now : Z) (olderThan : option Z) : gmap string (Doc Track Filters) :=
  let cutoffTime := now - default 86400000 olderThan in
  filter (λ kd, ~ (destroyed kd.2 = true /\ lastUpdated kd.2 < cutoffTime)) players.

(** The document with its queue, history, current track, requester,
    position and date replaced. *)
Definition withQueues (d : Doc Track Filters) (q previous : list Track)
    (current : option Track) (requester : option string) (pos now : Z)
    : Doc Track Filters :=
  {| botId := botId d;
     voiceChannelId := voiceChannelId d;
     textChannelId := textChannelId d;
     volume := volume d;
     loopMode := loopMode d;
     paused := paused d;
     twentyFourSeven := twentyFourSeven d;
     autoPlay := autoPlay d;
     position := pos;
     currentTrack := current;
     queue := q;
     previousTracks := previous;
     messageId := messageId d;
     requesterId := requester;
     filters := filters d;
     nodeId := nodeId d;
     sessionId := sessionId d;
     destroyed := destroyed d;
     lastUpdated := now |}.





(** The instance method [clearQueue()]. *)
Definition clearQueue (d : Doc Track Filters) (now : Z) : Doc Track Filters :=
  withQueues d [] (previousTracks d) (currentTrack d) (requesterId d)
    (position d) now.




End Documents.


End PlayerStore.

(** ** A cluster for examples *)

Module Scenario.
Import Cluster.

(** The load balancer's options when the configuration gives none. *)
Definition defaultOptions : LoadBalancer.Options :=
  LoadBalancer.mkOptions
    {| LoadBalancer.rawStrategy := None;
       LoadBalancer.rawHeartbeatInterval := None;
       LoadBalancer.rawMaxPlayersPerBot := None;
       LoadBalancer.rawStaleThreshold := None |}.

(** A ready bot without players. *)
Definition idleBot (id name cid : string) (main : bool) : BotClient :=
  {| botId := id; botName := name; clientId := cid; isMainBot := main;
     isReady := true; lavalink := Some {| players := ∅ |};
     playerCount := Some 0 |}.

(** The bot with one more player, for [guildId], in [channel]. *)
Definition withPlayer (c : BotClient) (guildId : string)
    (channel : option string) : BotClient :=
  {| botId := botId c; botName := botName c; clientId := clientId c;
     isMainBot := isMainBot c; isReady := isReady c;
     lavalink :=
       Some {| players :=
                 <[guildId := {| voiceChannelId := channel |}]>
                   (match lavalink c with
                    | Some lm => players lm
                    | None => ∅
                    end) |};
     playerCount := playerCount c |}.

Definition bot1 : BotClient := idleBot "bot-1" "Bot-1" "111" true.
Definition bot2 : BotClient := idleBot "bot-2" "Bot-2" "222" false.
Definition bot3 : BotClient := idleBot "bot-3" "Bot-3" "333" false.

(** The main bot plays in vc1 of guild1. *)
Definition bot1Busy : BotClient := withPlayer bot1 "guild1" (Some "vc1").

(** The main bot is busy in vc1; bot-2 and bot-3 are idle. *)
Definition busyCluster : list (string * BotClient) :=
  [("bot-1", bot1Busy); ("bot-2", bot2); ("bot-3", bot3)].

(** bot-2 holds a player for guild1 that is in no voice channel. *)
Definition bot2Detached : BotClient := withPlayer bot2 "guild1" None.

Definition detachedCluster : list (string * BotClient) :=
  [("bot-1", bot1Busy); ("bot-2", bot2Detached); ("bot-3", bot3)].

(** Every [Date.now()] of the evaluation reads [t]. *)
Definition clockAt (t : Z) : Router.Clock :=
  {| Router.atHasLock := t; Router.atProbe := t; Router.atAcquire := t |}.

End Scenario.

(** * Properties *)

(** ** The lock table *)

Module LockTableFacts.
Import LockTable.

Lemma expired_true now e : expired now e = true <-> now - timestamp e > LOCK_TIMEOUT.
Proof. unfold expired. rewrite Z.gtb_ltb, Z.ltb_lt. lia. Qed.

Lemma expired_false now e : expired now e = false <-> now - timestamp e <= LOCK_TIMEOUT.
Proof. unfold expired. rewrite Z.gtb_ltb, Z.ltb_ge. lia. Qed.

Lemma acquire_absent locks g p now :
  locks !! g = None ->
  acquireCommandLock locks g p now
  = (true, <[g := {| botId := p; timestamp := now |}]> locks).
Proof. intros H. unfold acquireCommandLock. by rewrite H. Qed.

Lemma acquire_expired locks g p now e :
  locks !! g = Some e -> expired now e = true ->
  acquireCommandLock locks g p now
  = (true, <[g := {| botId := p; timestamp := now |}]> locks).
Proof.
  intros H Hex. unfold acquireCommandLock. rewrite H, Hex.
  by rewrite insert_delete_eq.
Qed.

Lemma acquire_other locks g p now e :
  locks !! g = Some e -> expired now e = false -> botId e <> p ->
  acquireCommandLock locks g p now = (false, locks).
Proof.
  intros H Hex Hne. unfold acquireCommandLock. rewrite H, Hex.
  by rewrite bool_decide_eq_false_2.
Qed.

Lemma acquire_same locks g p now e :
  locks !! g = Some e -> expired now e = false -> botId e = p ->
  acquireCommandLock locks g p now = (true, locks).
Proof.
  intros H Hex Heq. unfold acquireCommandLock. rewrite H, Hex.
  by rewrite bool_decide_eq_true_2.
Qed.

Lemma release_owner locks g p e :
  locks !! g = Some e -> botId e = p ->
  releaseCommandLock locks g p = delete g locks.
Proof.
  intros H Heq. unfold releaseCommandLock. rewrite H.
  by rewrite bool_decide_eq_true_2.
Qed.

Lemma release_not_owner locks g p :
  (forall e, locks !! g = Some e -> botId e <> p) ->
  releaseCommandLock locks g p = locks.
Proof.
  intros H. unfold releaseCommandLock.
  destruct (locks !! g) as [e|] eqn:E; [|done].
  rewrite bool_decide_eq_false_2; [done|]. by apply H.
Qed.

Lemma successes_cons r rs :
  successes (r :: rs) = ((if r then 1 else 0) + successes rs)%nat.
Proof. unfold successes. by destruct r. Qed.

Lemma successes_all_false n : successes (replicate n false) = 0%nat.
Proof. induction n as [|n IH]; [done|]. simpl. by rewrite successes_cons, IH. Qed.

(** While an unexpired entry is owned by a bot that is not among the
    callers, every call fails and the table stays as it is. *)
Lemma acquireAll_foreign_owner calls : forall locks g e,
  locks !! g = Some e -> botId e ∉ calls.*1 -> noExpiry locks g calls ->
  acquireAll locks g calls = (replicate (length calls) false, locks).
Proof.
  induction calls as [|[p now] rest IH]; intros locks g e He Hnot Hfresh; [done|].
  simpl in *. destruct Hfresh as [Hf Hrest].
  unfold freshAt in Hf. rewrite He in Hf.
  apply not_elem_of_cons in Hnot as [Hne Hnot].
  rewrite (acquire_other _ _ _ _ _ He Hf Hne) in *. simpl in Hrest.
  by rewrite (IH locks g e).
Qed.

(** While an unexpired entry is owned by one of the callers, that caller
    and nobody else succeeds. *)
Lemma acquireAll_owner_among_callers calls : forall locks g e,
  locks !! g = Some e -> botId e ∈ calls.*1 -> NoDup calls.*1 ->
  noExpiry locks g calls ->
  successes (acquireAll locks g calls).1 = 1%nat.
Proof.
  induction calls as [|[p now] rest IH]; intros locks g e He Hin Hnd Hfresh.
  { by apply elem_of_nil in Hin. }
  simpl in *. destruct Hfresh as [Hf Hrest].
  unfold freshAt in Hf. rewrite He in Hf.
  apply NoDup_cons in Hnd as [Hp Hnd].
  destruct (decide (botId e = p)) as [Heq|Hne].
  - rewrite (acquire_same _ _ _ _ _ He Hf Heq) in *. simpl in Hrest.
    rewrite (acquireAll_foreign_owner rest locks g e); [|done|by rewrite Heq|done].
    simpl. by rewrite successes_cons, successes_all_false.
  - rewrite (acquire_other _ _ _ _ _ He Hf Hne) in *. simpl in Hrest.
    specialize (IH locks g e He).
    destruct (acquireAll locks g rest) as [rs l2] eqn:E. simpl in *.
    rewrite successes_cons. simpl.
    apply elem_of_cons in Hin as [Hin|Hin]; [done|]. by apply IH.
Qed.

(** After a call that installs a fresh entry for [p], the remaining
    callers, all different from [p], fail. *)
Lemma acquireAll_after_install rest locks g p now :
  p ∉ rest.*1 ->
  noExpiry (<[g := {| botId := p; timestamp := now |}]> locks) g rest ->
  successes
    (acquireAll (<[g := {| botId := p; timestamp := now |}]> locks) g rest).1
  = 0%nat.
Proof.
  intros Hp Hrest.
  rewrite (acquireAll_foreign_owner rest _ g {| botId := p; timestamp := now |});
    [|by rewrite lookup_insert_eq|done|done].
  apply successes_all_false.
Qed.

(** The number of successes of a run, by the holder at its first call. *)
Lemma acquireAll_successes locks g p now rest :
  NoDup (p :: rest.*1) ->
  noExpiry (acquireCommandLock locks g p now).2 g rest ->
  successes (acquireAll locks g ((p, now) :: rest)).1
  = match holder locks g now with
    | None => 1%nat
    | Some owner => if bool_decide (owner ∈ p :: rest.*1) then 1%nat else 0%nat
    end.
Proof.
  intros Hnd0 Hrest. pose proof Hnd0 as Hnd.
  apply NoDup_cons in Hnd as [Hp Hnd].
  unfold holder. destruct (locks !! g) as [e|] eqn:He.
  - destruct (expired now e) eqn:Hex.
    + simpl. rewrite (acquire_expired _ _ _ _ _ He Hex) in *. simpl in Hrest.
      pose proof (acquireAll_after_install rest locks g p now Hp Hrest) as H0.
      destruct (acquireAll _ g rest) as [rs l2]. simpl in *.
      by rewrite successes_cons, H0.
    + assert (noExpiry locks g ((p, now) :: rest)) as Hall.
      { simpl. split.
        - unfold freshAt. by rewrite He.
        - done. }
      case_bool_decide as Hin.
      * by apply (acquireAll_owner_among_callers ((p, now) :: rest) locks g e).
      * rewrite (acquireAll_foreign_owner ((p, now) :: rest) locks g e);
          [|done|done|done].
        apply successes_all_false.
  - simpl. rewrite (acquire_absent _ _ _ _ He) in *. simpl in Hrest.
    pose proof (acquireAll_after_install rest locks g p now Hp Hrest) as H0.
    destruct (acquireAll _ g rest) as [rs l2]. simpl in *.
    by rewrite successes_cons, H0.
Qed.

(** While no call comes later than the timeout after the timestamp of the
    entry in force, no call finds it expired. *)
Lemma noExpiry_within calls : forall locks g e,
  locks !! g = Some e ->
  Forall (λ call : string * Z, call.2 - timestamp e <= LOCK_TIMEOUT) calls ->
  noExpiry locks g calls.
Proof.
  induction calls as [|[p now] rest IH]; intros locks g e He Hall; [done|].
  apply Forall_cons in Hall as [Hnow Hrest]. simpl in Hnow.
  apply expired_false in Hnow. simpl. split.
  - unfold freshAt. by rewrite He.
  - destruct (decide (botId e = p)) as [Heq|Hne].
    + rewrite (acquire_same _ _ _ _ _ He Hnow Heq). by apply (IH locks g e).
    + rewrite (acquire_other _ _ _ _ _ He Hnow Hne). by apply (IH locks g e).
Qed.

Lemma withinWindow_noExpiryAfterFirst locks g calls :
  withinWindow locks g calls -> noExpiryAfterFirst locks g calls.
Proof.
  destruct calls as [|[p now] rest]; [done|]. simpl. unfold windowStart.
  destruct (locks !! g) as [e|] eqn:He.
  - destruct (expired now e) eqn:Hex.
    + intros Hall. rewrite (acquire_expired _ _ _ _ _ He Hex). simpl.
      apply (noExpiry_within rest _ g {| botId := p; timestamp := now |});
        [by rewrite lookup_insert_eq|done].
    + intros Hall. destruct (decide (botId e = p)) as [Heq|Hne].
      * rewrite (acquire_same _ _ _ _ _ He Hex Heq).
        by apply (noExpiry_within rest locks g e).
      * rewrite (acquire_other _ _ _ _ _ He Hex Hne).
        by apply (noExpiry_within rest locks g e).
  - intros Hall. rewrite (acquire_absent _ _ _ _ He). simpl.
    apply (noExpiry_within rest _ g {| botId := p; timestamp := now |});
      [by rewrite lookup_insert_eq|done].
Qed.

Lemma holdsLock_holder locks g p now :
  holdsLock locks g p now <-> holder locks g now = Some p.
Proof.
  unfold holdsLock, hasCommandLock, holder.
  destruct (locks !! g) as [e|]; [|done].
  destruct (expired now e); [done|]. simpl.
  rewrite bool_decide_eq_true. naive_solver.
Qed.

End LockTableFacts.

Module LockTableClaims.
Import LockTable LockTableFacts.

(** C2. The contract of one [acquireCommandLock(guildId, botId)] call at
    time [now], with a timeout of 10 seconds:
    - no entry for the guild: the call returns [true] and creates an entry
      owned by [botId];
    - an entry older than the timeout: the call returns [true] and
      replaces the entry, without any release;
    - an unexpired entry of another bot: the call returns [false] and the
      table is unchanged;
    - an unexpired entry of the same bot: the call returns [true] and
      the table, hence the entry's timestamp, is unchanged. *)
Theorem acquire_contract (locks : gmap string Lock) (g p : string) (now : Z) :
  LOCK_TIMEOUT = 10000 /\
  (locks !! g = None ->
     acquireCommandLock locks g p now
     = (true, <[g := {| botId := p; timestamp := now |}]> locks)) /\
  (forall e, locks !! g = Some e -> now - timestamp e > LOCK_TIMEOUT ->
     acquireCommandLock locks g p now
     = (true, <[g := {| botId := p; timestamp := now |}]> locks)) /\
  (forall e, locks !! g = Some e -> now - timestamp e <= LOCK_TIMEOUT ->
     botId e <> p ->
     acquireCommandLock locks g p now = (false, locks)) /\
  (forall e, locks !! g = Some e -> now - timestamp e <= LOCK_TIMEOUT ->
     botId e = p ->
     acquireCommandLock locks g p now = (true, locks)).
Proof.
  split; [reflexivity|]. split; [apply acquire_absent|].
  split; [|split].
  - intros e He Hage. apply (acquire_expired _ _ _ _ e He).
    by apply expired_true.
  - intros e He Hage Hne. apply (acquire_other _ _ _ _ e He); [|done].
    by apply expired_false.
  - intros e He Hage Heq. apply (acquire_same _ _ _ _ e He); [|done].
    by apply expired_false.
Qed.

(** The four cases of C2 on a table that holds bot A's lock on guild1,
    taken at time 0. *)
Lemma acquire_contract_witness :
  let held : gmap string Lock := {[ "guild1" := {| botId := "A"; timestamp := 0 |} ]} in
  acquireCommandLock held "guild2" "B" 5
  = (true, <["guild2" := {| botId := "B"; timestamp := 5 |}]> held) /\
  acquireCommandLock held "guild1" "B" 10001
  = (true, <["guild1" := {| botId := "B"; timestamp := 10001 |}]> held) /\
  acquireCommandLock held "guild1" "B" 10000 = (false, held) /\
  acquireCommandLock held "guild1" "A" 10000 = (true, held).
Proof.
  intros held.
  split; [|split; [|split]].
  - apply (acquire_contract held "guild2" "B" 5). reflexivity.
  - apply (acquire_contract held "guild1" "B" 10001) with
      (e := {| botId := "A"; timestamp := 0 |}); [reflexivity|].
    unfold LOCK_TIMEOUT; simpl; lia.
  - apply (acquire_contract held "guild1" "B" 10000) with
      (e := {| botId := "A"; timestamp := 0 |}); [reflexivity| |discriminate].
    unfold LOCK_TIMEOUT; simpl; lia.
  - apply (acquire_contract held "guild1" "A" 10000) with
      (e := {| botId := "A"; timestamp := 0 |}); [reflexivity| |reflexivity].
    unfold LOCK_TIMEOUT; simpl; lia.
Defined.

(** C7. [releaseCommandLock(guildId, botId)] removes the guild's entry
    exactly when that entry is owned by [botId] (whether or not it has
    expired) and otherwise leaves the table as it is; other guilds are
    never touched.  Hence, when A's lock has expired and B has taken the
    lock, A's release leaves B's lock in place. *)
Theorem release_owner_gated (locks : gmap string Lock) (g p : string) :
  (forall e, locks !! g = Some e -> botId e = p ->
     releaseCommandLock locks g p = delete g locks) /\
  ((forall e, locks !! g = Some e -> botId e <> p) ->
     releaseCommandLock locks g p = locks) /\
  (releaseCommandLock locks g p <> locks <->
     exists e, locks !! g = Some e /\ botId e = p) /\
  (forall g', g' <> g -> releaseCommandLock locks g p !! g' = locks !! g') /\
  (forall a b t0 t1 t2,
     locks !! g = None -> a <> b ->
     t1 - t0 <= LOCK_TIMEOUT -> t2 - t0 > LOCK_TIMEOUT ->
     let c0 := acquireCommandLock locks g a t0 in
     let c1 := acquireCommandLock c0.2 g b t1 in
     let c2 := acquireCommandLock c1.2 g b t2 in
     c0.1 = true /\ c1.1 = false /\ c2.1 = true /\
     releaseCommandLock c2.2 g a = c2.2 /\
     c2.2 !! g = Some {| botId := b; timestamp := t2 |}).
Proof.
  split; [apply release_owner|]. split; [apply release_not_owner|].
  split; [|split].
  - split.
    + intros Hchg. destruct (locks !! g) as [e|] eqn:He.
      * destruct (decide (botId e = p)) as [Heq|Hne]; [by exists e|].
        exfalso. apply Hchg. apply release_not_owner. intros e' He'.
        rewrite He in He'. by simplify_eq.
      * exfalso. apply Hchg. apply release_not_owner. intros e' He'.
        by rewrite He in He'.
    + intros (e & He & Heq) Hsame.
      rewrite (release_owner _ _ _ e He Heq) in Hsame.
      assert (delete g locks !! g = locks !! g) as Hl by by rewrite Hsame.
      by rewrite lookup_delete_eq, He in Hl.
  - intros g' Hne. unfold releaseCommandLock.
    destruct (locks !! g) as [e|]; [|done].
    case_bool_decide; [|done]. by rewrite lookup_delete_ne.
  - intros a b t0 t1 t2 Hfree Hab H1 H2. cbv zeta.
    rewrite (acquire_absent _ _ _ _ Hfree). simpl.
    set (ea := {| botId := a; timestamp := t0 |}).
    rewrite (acquire_other (<[g:=ea]> locks) g b t1 ea);
      [|by rewrite lookup_insert_eq|by apply expired_false|done].
    simpl.
    rewrite (acquire_expired (<[g:=ea]> locks) g b t2 ea);
      [|by rewrite lookup_insert_eq|by apply expired_true].
    simpl. rewrite insert_insert_eq.
    split; [done|]. split; [done|]. split; [done|]. split.
    + apply release_not_owner. intros e. rewrite lookup_insert_eq.
      intros [= <-]. simpl. congruence.
    + by rewrite lookup_insert_eq.
Qed.

(** The scenario of C7 on the empty table: A at time 0, B at time 5000
    and again at time 10001, then A's release. *)
Lemma release_owner_gated_witness :
  let l0 := (acquireCommandLock ∅ "guild1" "A" 0).2 in
  let l1 := (acquireCommandLock l0 "guild1" "B" 5000).2 in
  let l2 := (acquireCommandLock l1 "guild1" "B" 10001).2 in
  releaseCommandLock l2 "guild1" "A" = l2 /\
  l2 !! "guild1" = Some {| botId := "B"; timestamp := 10001 |} /\
  releaseCommandLock l2 "guild1" "B" = delete "guild1" l2.
Proof.
  intros l0 l1 l2.
  destruct (release_owner_gated ∅ "guild1" "A") as (_ & _ & _ & _ & Hsc).
  specialize (Hsc "A" "B" 0 5000 10001).
  assert (("A" : string) <> "B") as Hab by discriminate.
  assert (5000 - 0 <= LOCK_TIMEOUT) as H1 by (unfold LOCK_TIMEOUT; lia).
  assert (10001 - 0 > LOCK_TIMEOUT) as H2 by (unfold LOCK_TIMEOUT; lia).
  specialize (Hsc eq_refl Hab H1 H2).
  split; [|split].
  - apply Hsc.
  - apply Hsc.
  - apply (release_owner_gated l2 "guild1" "B") with
      (e := {| botId := "B"; timestamp := 10001 |}); reflexivity.
Defined.

(** C1, as the code has it.  For [N] calls of [acquireCommandLock] on one
    guild by pairwise distinct bots, made in sequence within the lock
    timeout window (so that no call after the first finds an expired
    entry) and with no release in between:
    - at most one call returns [true], from every state of the table;
    - exactly one call returns [true] when at the first call the guild's
      lock is free (absent or expired) or validly held by one of the
      callers;
    - no call returns [true] when at the first call the lock is validly
      held by a bot that is not among the callers;
    - in every state reached by any sequence of acquire, release and
      hasLock operations, at most one bot validly holds the guild's lock;
    - a call that returns [true] leaves its caller as the valid holder,
      and a call that returns [false] leaves another bot as the valid
      holder. *)
Theorem acquire_mutual_exclusion (locks : gmap string Lock) (g : string)
    (calls : list (string * Z)) :
  NoDup calls.*1 -> withinWindow locks g calls ->
  (successes (acquireAll locks g calls).1 <= 1)%nat /\
  (startHeldByCaller locks g calls ->
     successes (acquireAll locks g calls).1 = 1%nat) /\
  (startHeldByOutsider locks g calls ->
     successes (acquireAll locks g calls).1 = 0%nat) /\
  (forall ops now p q,
     holdsLock (runOps locks ops) g p now ->
     holdsLock (runOps locks ops) g q now -> p = q) /\
  (forall p now,
     let c := acquireCommandLock locks g p now in
     if c.1 then holder c.2 g now = Some p
     else exists q, q <> p /\ holder c.2 g now = Some q).
Proof.
  intros Hnd Hwin. apply withinWindow_noExpiryAfterFirst in Hwin.
  split; [|split; [|split; [|split]]].
  - destruct calls as [|[p now] rest]; [unfold successes; simpl; lia|].
    simpl in Hnd, Hwin.
    rewrite (acquireAll_successes locks g p now rest Hnd Hwin).
    destruct (holder locks g now); [case_bool_decide|]; lia.
  - destruct calls as [|[p now] rest]; [done|].
    simpl in Hnd, Hwin. unfold startHeldByCaller. intros Hstart.
    rewrite (acquireAll_successes locks g p now rest Hnd Hwin).
    destruct (holder locks g now) as [owner|]; [|done].
    by rewrite bool_decide_eq_true_2.
  - destruct calls as [|[p now] rest]; [done|].
    simpl in Hnd, Hwin. unfold startHeldByOutsider. intros Hstart.
    rewrite (acquireAll_successes locks g p now rest Hnd Hwin).
    destruct (holder locks g now) as [owner|]; [|done].
    by rewrite bool_decide_eq_false_2.
  - intros ops now p q Hp Hq.
    apply holdsLock_holder in Hp. apply holdsLock_holder in Hq. congruence.
  - intros p now. cbv zeta. unfold acquireCommandLock, holder.
    destruct (locks !! g) as [e|] eqn:He.
    + destruct (expired now e) eqn:Hex.
      * simpl. rewrite lookup_insert_eq.
        replace (expired now {| botId := p; timestamp := now |}) with false;
          [done|].
        symmetry. apply expired_false. simpl. unfold LOCK_TIMEOUT. lia.
      * case_bool_decide as Heq; simpl; rewrite He, Hex.
        -- by rewrite Heq.
        -- by exists (botId e).
    + simpl. rewrite lookup_insert_eq.
      replace (expired now {| botId := p; timestamp := now |}) with false;
        [done|].
      symmetry. apply expired_false. simpl. unfold LOCK_TIMEOUT. lia.
Qed.

(** Three bots ask for the free lock of guild1 within the timeout: only
    the first gets it. *)
Lemma acquire_mutual_exclusion_witness :
  let calls := [("A", 0); ("B", 5); ("C", 9)] in
  (acquireAll ∅ "guild1" calls).1 = [true; false; false] /\
  successes (acquireAll ∅ "guild1" calls).1 = 1%nat.
Proof.
  intros calls. split; [reflexivity|].
  apply (acquire_mutual_exclusion ∅ "guild1" calls).
  - compute_done.
  - repeat constructor; by vm_compute.
  - vm_compute. exact I.
Defined.

(** C1 does not hold from every state of the table: while an unexpired
    lock is held by a bot outside the callers, no call succeeds, although
    the calls are by distinct bots, within the timeout window and none
    finds an expired entry. *)
Lemma acquire_exactly_one_from_any_state_fails :
  ~ (forall (locks : gmap string Lock) (g : string) (calls : list (string * Z)),
       calls <> [] -> NoDup calls.*1 -> withinWindow locks g calls ->
       noExpiry locks g calls ->
       successes (acquireAll locks g calls).1 = 1%nat).
Proof.
  intros H.
  specialize (H {[ "guild1" := {| botId := "Z"; timestamp := 0 |} ]}
                "guild1" [("A", 1); ("B", 2)]).
  assert (successes
            (acquireAll {[ "guild1" := {| botId := "Z"; timestamp := 0 |} ]}
               "guild1" [("A", 1); ("B", 2)]).1 = 0%nat) as H0
    by reflexivity.
  rewrite H0 in H. discriminate H.
  - discriminate.
  - compute_done.
  - repeat constructor; by vm_compute.
  - vm_compute. done.
Qed.

End LockTableClaims.

(** ** The assignment store *)

Module GuildAssignmentFacts.
Import GuildAssignment.

Lemma releaseInactive_lookup store now th g :
  releaseInactiveAssignments store now th !! g
  = sweepOne (now - default 300000 th) <$> store !! g.
Proof. unfold releaseInactiveAssignments. by rewrite lookup_fmap. Qed.

Lemma matchesInactive_spec t a :
  matchesInactive t a = true <-> isActive a = true /\ lastActivity a < t.
Proof. unfold matchesInactive. rewrite andb_true_iff, Z.ltb_lt. done. Qed.

Lemma matchesInactive_setInactive t a : matchesInactive t (setInactive a) = false.
Proof. done. Qed.

Lemma matchesInactive_mono t t' a :
  t <= t' -> matchesInactive t a = true -> matchesInactive t' a = true.
Proof. rewrite !matchesInactive_spec. intros ? [? ?]. split; [done|lia]. Qed.

(** A later sweep absorbs an earlier one. *)
Lemma sweepOne_absorb t t' a :
  t <= t' -> sweepOne t' (sweepOne t a) = sweepOne t' a.
Proof.
  intros Hle. unfold sweepOne.
  destruct (matchesInactive t a) eqn:E; [|done].
  rewrite matchesInactive_setInactive.
  by rewrite (matchesInactive_mono t t' a Hle E).
Qed.

End GuildAssignmentFacts.

Module GuildAssignmentClaims.
Import GuildAssignment GuildAssignmentFacts.

(** C8. [releaseInactiveAssignments(threshold)] (default 300 s), run at
    time [now]:
    - keeps the set of rows (nothing is deleted or added);
    - a row that is active and whose [lastActivity] is before
      [now - threshold] gets [isActive = false] and keeps every other
      field, its owner included; every other row is unchanged;
    - run twice in a row, it yields the same store as run once: at the same
      instant the second run changes nothing, and a second run at a later
      instant leaves what a single run at that instant leaves. *)
Theorem releaseInactive_sweep (store : gmap string Assignment) (now : Z)
    (threshold : option Z) :
  let inactiveTime := now - default 300000 threshold in
  let swept := releaseInactiveAssignments store now threshold in
  dom swept = dom store /\
  (forall g a, store !! g = Some a ->
     exists a', swept !! g = Some a' /\
       assignedBotId a' = assignedBotId a /\
       assignedClientId a' = assignedClientId a /\
       voiceChannelId a' = voiceChannelId a /\
       textChannelId a' = textChannelId a /\
       assignedAt a' = assignedAt a /\
       lastActivity a' = lastActivity a /\
       assignmentReason a' = assignmentReason a /\
       previousBotId a' = previousBotId a /\
       isActive a' =
         (if bool_decide (isActive a = true /\ lastActivity a < inactiveTime)
          then false else isActive a)) /\
  (forall g, swept !! g <> store !! g <->
     exists a, store !! g = Some a /\ isActive a = true /\
               lastActivity a < inactiveTime) /\
  releaseInactiveAssignments swept now threshold = swept /\
  (forall now', now <= now' ->
     releaseInactiveAssignments swept now' threshold
     = releaseInactiveAssignments store now' threshold).
Proof.
  cbv zeta. split; [|split; [|split; [|split]]].
  - unfold releaseInactiveAssignments. apply dom_fmap_L.
  - intros g a Hg. exists (sweepOne (now - default 300000 threshold) a).
    rewrite releaseInactive_lookup, Hg. split; [done|].
    unfold sweepOne.
    destruct (matchesInactive _ a) eqn:E.
    + apply matchesInactive_spec in E.
      rewrite bool_decide_eq_true_2 by done. by repeat split.
    + rewrite bool_decide_eq_false_2; [by repeat split|].
      intros H. apply matchesInactive_spec in H. congruence.
  - intros g. rewrite releaseInactive_lookup.
    destruct (store !! g) as [a|] eqn:Hg; simpl.
    + unfold sweepOne. destruct (matchesInactive _ a) eqn:E.
      * apply matchesInactive_spec in E as [Hact Hold]. split.
        -- intros _. by exists a.
        -- intros _ [= Heq]. rewrite <- Heq in Hact. done.
      * split; [done|]. intros (a' & [= <-] & Hact & Hold).
        assert (matchesInactive (now - default 300000 threshold) a = true) as E'
          by by apply matchesInactive_spec.
        congruence.
    + split; [done|]. by intros (a & ? & _).
  - apply map_eq. intros g. rewrite !releaseInactive_lookup.
    destruct (store !! g) as [a|]; [|done]. simpl.
    by rewrite sweepOne_absorb.
  - intros now' Hle. apply map_eq. intros g. rewrite !releaseInactive_lookup.
    destruct (store !! g) as [a|]; [|done]. simpl.
    rewrite sweepOne_absorb; [done|lia].
Qed.

End GuildAssignmentClaims.

(** ** The load balancer *)

Module LoadBalancerFacts.
Import Cluster LoadBalancer.

Lemma getOrCreate_existing store g bot cid reason now a :
  store !! g = Some a ->
  GuildAssignment.getOrCreateAssignment store g bot cid reason now = (a, store).
Proof.
  intros H. unfold GuildAssignment.getOrCreateAssignment, GuildAssignment.findById.
  by rewrite H.
Qed.

Lemma stickyOwner_Some botCluster existing a c :
  stickyOwner botCluster existing = Some (a, c) <->
  existing = Some a /\ GuildAssignment.isActive a = true /\
  get botCluster (GuildAssignment.assignedBotId a) = Some c /\ isReady c = true.
Proof.
  unfold stickyOwner. split.
  - destruct existing as [a0|]; [|done].
    destruct (GuildAssignment.isActive a0) eqn:Hact; [|done].
    destruct (get botCluster (GuildAssignment.assignedBotId a0)) as [c0|] eqn:Hget;
      [|done].
    destruct (isReady c0) eqn:Hready; [|done].
    by intros [= <- <-].
  - intros (-> & Hact & Hget & Hready). by rewrite Hact, Hget, Hready.
Qed.

Lemma stickyOwner_None botCluster existing :
  stickyOwner botCluster existing = None <->
  ~ exists a c, existing = Some a /\ GuildAssignment.isActive a = true /\
      get botCluster (GuildAssignment.assignedBotId a) = Some c /\
      isReady c = true.
Proof.
  split.
  - intros Hnone (a & c & H). apply stickyOwner_Some in H. congruence.
  - intros Hno. destruct (stickyOwner botCluster existing) as [[a c]|] eqn:E;
      [|done].
    exfalso. apply Hno. exists a, c. by apply stickyOwner_Some.
Qed.

(** The calls of [assignBot], by the branch taken. *)
Lemma assignBot_calls options botCluster store now g :
  (assignBot options botCluster store now g).2
  = match stickyOwner botCluster (store !! g) with
    | Some _ => [CallTouch g]
    | None =>
        match _selectBot options botCluster with
        | Some (selectedId, _) => [CallSelectBot; CallGetOrCreate g selectedId]
        | None => [CallSelectBot]
        end
    end.
Proof.
  unfold assignBot, GuildAssignment.findById.
  destruct (stickyOwner botCluster (store !! g)) as [[a c]|]; [done|].
  destruct (_selectBot options botCluster) as [[sid sc]|]; [|done].
  by destruct (GuildAssignment.getOrCreateAssignment _ _ _ _ _ _).
Qed.

End LoadBalancerFacts.

Module LoadBalancerClaims.
Import Cluster LoadBalancer LoadBalancerFacts.

(** C5. Sticky routing.  When the guild has an assignment that is active
    and whose bot is in the cluster and ready, [assignBot] sets the
    record's [lastActivity] to the time of the call, saves it, and returns
    that bot with the refreshed record; its only call is [touch].
    [_selectBot] is called exactly when there is no such assignment. *)
Theorem assignBot_sticky (options : Options)
    (botCluster : list (string * BotClient))
    (store : gmap string GuildAssignment.Assignment) (now : Z) (K : string) :
  (forall a c,
     store !! K = Some a -> GuildAssignment.isActive a = true ->
     get botCluster (GuildAssignment.assignedBotId a) = Some c ->
     isReady c = true ->
     assignBot options botCluster store now K
     = (Some {| assignedBot := GuildAssignment.assignedBotId a;
                assignedClient := c;
                assignment := GuildAssignment.touch a now |},
        <[K := GuildAssignment.touch a now]> store,
        [CallTouch K])
     /\ GuildAssignment.lastActivity (GuildAssignment.touch a now) = now
     /\ GuildAssignment.assignedBotId (GuildAssignment.touch a now)
        = GuildAssignment.assignedBotId a) /\
  (CallSelectBot ∈ (assignBot options botCluster store now K).2 <->
   ~ exists a c,
       store !! K = Some a /\ GuildAssignment.isActive a = true /\
       get botCluster (GuildAssignment.assignedBotId a) = Some c /\
       isReady c = true).
Proof.
  split.
  - intros a c Ha Hact Hget Hready. split; [|done].
    assert (stickyOwner botCluster (store !! K) = Some (a, c)) as Hs
      by by apply stickyOwner_Some.
    unfold assignBot, GuildAssignment.findById. by rewrite Hs.
  - rewrite assignBot_calls, <- stickyOwner_None.
    destruct (stickyOwner botCluster (store !! K)) as [[a c]|].
    + split; [|done]. intros Hin. apply list_elem_of_singleton in Hin. done.
    + split; [done|]. intros _.
      destruct (_selectBot options botCluster) as [[sid sc]|];
        apply list_elem_of_here.
Qed.

(** C10. When the guild already has a record naming bot A, the record is
    inactive or A is not a ready bot of the cluster, and the selector
    picks a different bot B, [assignBot] returns B together with the
    record as stored, which still names A; the store is left as it was. *)
Theorem assignBot_result_disagrees_with_record (options : Options)
    (botCluster : list (string * BotClient))
    (store : gmap string GuildAssignment.Assignment) (now : Z) (G : string)
    (a : GuildAssignment.Assignment) (B : string) (clientB : BotClient) :
  store !! G = Some a ->
  (GuildAssignment.isActive a = false \/
   forall c, get botCluster (GuildAssignment.assignedBotId a) = Some c ->
             isReady c = false) ->
  _selectBot options botCluster = Some (B, clientB) ->
  B <> GuildAssignment.assignedBotId a ->
  exists r store',
    assignBot options botCluster store now G
    = (Some r, store', [CallSelectBot; CallGetOrCreate G B]) /\
    assignedBot r = B /\ assignedClient r = clientB /\
    assignment r = a /\
    GuildAssignment.assignedBotId (assignment r) <> assignedBot r /\
    store' = store /\ store' !! G = Some a.
Proof.
  intros Ha Hstale Hsel Hne.
  assert (stickyOwner botCluster (store !! G) = None) as Hs.
  { apply stickyOwner_None. intros (a' & c & Ha' & Hact & Hget & Hready).
    rewrite Ha in Ha'. injection Ha' as <-.
    destruct Hstale as [Hin|Hnr]; [congruence|].
    specialize (Hnr c Hget). congruence. }
  unfold assignBot, GuildAssignment.findById. rewrite Hs, Hsel.
  rewrite (getOrCreate_existing store G B _ _ now a Ha).
  eexists _, _. split; [reflexivity|]. simpl. by repeat split.
Qed.

(** C10 on a two-bot cluster: guild1 is recorded on bot-2, which is not
    ready; the selector picks bot-1. *)
Lemma assignBot_result_disagrees_with_record_witness :
  let options := mkOptions {| rawStrategy := None; rawHeartbeatInterval := None;
                              rawMaxPlayersPerBot := None;
                              rawStaleThreshold := None |} in
  let bot1 := {| botId := "bot-1"; botName := "Bot-1"; clientId := "111";
                 isMainBot := true; isReady := true;
                 lavalink := Some {| players := ∅ |}; playerCount := Some 0 |} in
  let bot2 := {| botId := "bot-2"; botName := "Bot-2"; clientId := "222";
                 isMainBot := false; isReady := false;
                 lavalink := Some {| players := ∅ |}; playerCount := Some 0 |} in
  let a := GuildAssignment.setInactive
             (GuildAssignment.create "bot-2" "222" GuildAssignment.ReasonAuto 0) in
  let store : gmap string GuildAssignment.Assignment := {[ "guild1" := a ]} in
  exists r store',
    assignBot options [("bot-1", bot1); ("bot-2", bot2)] store 1000 "guild1"
    = (Some r, store', [CallSelectBot; CallGetOrCreate "guild1" "bot-1"]) /\
    assignedBot r = "bot-1" /\ assignedClient r = bot1 /\
    assignment r = a /\
    GuildAssignment.assignedBotId (assignment r) <> assignedBot r /\
    store' = store /\ store' !! "guild1" = Some a.
Proof.
  intros options bot1 bot2 a store.
  apply (assignBot_result_disagrees_with_record options
           [("bot-1", bot1); ("bot-2", bot2)] store 1000 "guild1" a "bot-1" bot1).
  - reflexivity.
  - left. reflexivity.
  - reflexivity.
  - discriminate.
Defined.

(** C6, as the code has it.  The status that [_updateBotStatus] hands
    over for persisting, with [n] the live player count that it also
    reports: [Offline] when the bot is not ready, whatever its load;
    [InUse] when the bot is ready and [n] is at or above the capacity or
    above zero; [Available] when the bot is ready, [n] is zero and below
    the capacity.  One heartbeat produces this report for every bot of
    the cluster. *)
Theorem updateBotStatus_status (options : Options) (client : BotClient) :
  let n := livePlayerCount client in
  let report := (_updateBotStatus options client).2 in
  report.2 = n /\
  (isReady client = false -> report.1 = Offline) /\
  (isReady client = true -> n >= maxPlayersPerBot options -> report.1 = InUse) /\
  (isReady client = true -> n > 0 -> report.1 = InUse) /\
  (isReady client = true -> n < maxPlayersPerBot options -> n <= 0 ->
     report.1 = Available) /\
  (forall botCluster,
     (_heartbeat options botCluster).2
     = map (λ kc, (kc.1, (_updateBotStatus options kc.2).2)) botCluster).
Proof.
  cbv zeta. unfold _updateBotStatus. simpl.
  split; [done|]. split; [by intros ->|].
  split; [|split; [|split]].
  - intros -> Hn. simpl.
    destruct (livePlayerCount client >=? maxPlayersPerBot options) eqn:E; [done|].
    rewrite Z.geb_leb in E. apply Z.leb_gt in E. lia.
  - intros -> Hn. simpl.
    destruct (livePlayerCount client >=? maxPlayersPerBot options); [done|].
    destruct (livePlayerCount client >? 0) eqn:E; [done|].
    rewrite Z.gtb_ltb in E. apply Z.ltb_ge in E. lia.
  - intros -> Hcap Hn. simpl.
    destruct (livePlayerCount client >=? maxPlayersPerBot options) eqn:E.
    { apply Z.geb_le in E. lia. }
    destruct (livePlayerCount client >? 0) eqn:E'; [|done].
    rewrite Z.gtb_ltb in E'. apply Z.ltb_lt in E'. lia.
  - done.
Qed.

(** C6 fails for a ready bot with one player and the default capacity of
    100: its status is [InUse], not [Available]. *)
Lemma updateBotStatus_partly_loaded_is_InUse :
  let options := mkOptions {| rawStrategy := None; rawHeartbeatInterval := None;
                              rawMaxPlayersPerBot := None;
                              rawStaleThreshold := None |} in
  let client :=
    {| botId := "bot-1"; botName := "Bot-1"; clientId := "111";
       isMainBot := true; isReady := true;
       lavalink :=
         Some {| players := {[ "guild1" := {| voiceChannelId := Some "vc1" |} ]} |};
       playerCount := None |} in
  isReady client = true /\
  0 < livePlayerCount client < maxPlayersPerBot options /\
  (_updateBotStatus options client).2.1 = InUse /\
  (_updateBotStatus options client).2.1 <> Available.
Proof.
  cbv zeta. split; [reflexivity|]. split; [by vm_compute|].
  split; [by vm_compute|]. vm_compute. discriminate.
Qed.

(** C4 at a cluster whose ready bots are all at capacity (capacity 2): the
    main bot has three players and bot-2 has two.  After a heartbeat has
    refreshed the cached counts, the priority selector returns the main
    bot, the head of its main-first order, although bot-2 carries less. *)
Lemma selectByPriority_full_cluster_returns_main :
  let options :=
    mkOptions {| rawStrategy := None; rawHeartbeatInterval := None;
                 rawMaxPlayersPerBot := Some 2; rawStaleThreshold := None |} in
  let main :=
    Scenario.withPlayer
      (Scenario.withPlayer
         (Scenario.withPlayer Scenario.bot1 "guild1" (Some "vc1"))
         "guild2" (Some "vc2"))
      "guild3" (Some "vc3") in
  let second :=
    Scenario.withPlayer (Scenario.withPlayer Scenario.bot2 "guild4" (Some "vc4"))
      "guild5" (Some "vc5") in
  let botCluster := (_heartbeat options [("bot-1", main); ("bot-2", second)]).1 in
  strategy options = "priority" /\ maxPlayersPerBot options = 2 /\
  Forall (λ kc, isReady kc.2 = true /\
                livePlayerCount kc.2 >= maxPlayersPerBot options) botCluster /\
  livePlayerCount main = 3 /\ livePlayerCount second = 2 /\
  _selectBot options botCluster = Some ("bot-1", setPlayerCount main 3) /\
  _selectBot options botCluster <> Some ("bot-2", setPlayerCount second 2).
Proof.
  cbv zeta. split; [reflexivity|]. split; [reflexivity|].
  split; [by repeat constructor; vm_compute|].
  split; [by vm_compute|]. split; [by vm_compute|].
  split; [by vm_compute|]. vm_compute. discriminate.
Qed.

End LoadBalancerClaims.

(** ** Sorting *)

Module SortFacts.

Section Sorting.
Context {A : Type} (cmp : A -> A -> Z).

Lemma sortInsert_elem_of x y l : y ∈ sortInsert cmp x l <-> y = x \/ y ∈ l.
Proof.
  induction l as [|z l IH]; simpl.
  - rewrite list_elem_of_singleton, elem_of_nil. tauto.
  - destruct (cmp x z <=? 0).
    + by rewrite elem_of_cons.
    + rewrite !elem_of_cons, IH. tauto.
Qed.

Lemma jsSort_elem_of y l : y ∈ jsSort cmp l <-> y ∈ l.
Proof.
  unfold jsSort. induction l as [|x l IH]; simpl; [done|].
  by rewrite sortInsert_elem_of, elem_of_cons, IH.
Qed.

Hypothesis cmp_total : forall a b, cmp a b <= 0 \/ cmp b a <= 0.
Hypothesis cmp_trans : forall a b c, cmp a b <= 0 -> cmp b c <= 0 -> cmp a c <= 0.

Lemma sortInsert_ascending x l : ascending cmp l -> ascending cmp (sortInsert cmp x l).
Proof.
  induction l as [|z l IH]; simpl.
  - intros _. split; [|done]. intros y Hy. by apply elem_of_nil in Hy.
  - intros [Hz Hl]. destruct (cmp x z <=? 0) eqn:E.
    + apply Z.leb_le in E. simpl. split; [|done].
      intros y Hy. apply elem_of_cons in Hy as [->|Hy]; [done|].
      apply (cmp_trans x z y); [done|]. by apply Hz.
    + apply Z.leb_gt in E. simpl. split; [|by apply IH].
      intros y Hy. apply sortInsert_elem_of in Hy as [->|Hy]; [|by apply Hz].
      destruct (cmp_total z x); [done|lia].
Qed.

Lemma jsSort_ascending l : ascending cmp (jsSort cmp l).
Proof.
  unfold jsSort. induction l as [|x l IH]; simpl; [done|].
  by apply sortInsert_ascending.
Qed.

(** The first element of an ascending list that passes a test is at most
    every element that passes it. *)
Lemma find_ascending_least (P : A -> bool) l x :
  ascending cmp l -> List.find P l = Some x ->
  x ∈ l /\ P x = true /\ forall y, y ∈ l -> P y = true -> cmp x y <= 0.
Proof.
  induction l as [|z l IH]; simpl; [done|].
  intros [Hz Hl]. destruct (P z) eqn:Pz.
  - intros [= <-]. split; [apply list_elem_of_here|]. split; [done|].
    intros y Hy _. apply elem_of_cons in Hy as [->|Hy]; [|by apply Hz].
    by destruct (cmp_total z z).
  - intros Hfind. destruct (IH Hl Hfind) as (Hin & Px & Hleast).
    split; [by apply list_elem_of_further|]. split; [done|].
    intros y Hy Py. apply elem_of_cons in Hy as [->|Hy]; [congruence|].
    by apply Hleast.
Qed.

End Sorting.

Lemma find_none_elem_of {A} (P : A -> bool) l :
  List.find P l = None <-> forall y, y ∈ l -> P y = false.
Proof.
  induction l as [|z l IH]; simpl.
  - split; [|done]. intros _ y Hy. by apply elem_of_nil in Hy.
  - destruct (P z) eqn:Pz.
    + split; [done|]. intros H. specialize (H z (list_elem_of_here _ _)).
      congruence.
    + rewrite IH. split.
      * intros H y Hy. apply elem_of_cons in Hy as [->|Hy]; [done|by apply H].
      * intros H y Hy. apply H. by apply list_elem_of_further.
Qed.

Lemma filter_elem_of {A} (P : A -> bool) l x :
  x ∈ List.filter P l <-> x ∈ l /\ P x = true.
Proof. rewrite !list_elem_of_In. apply filter_In. Qed.

End SortFacts.

(** ** The router *)

Module RouterFacts.
Import Cluster Router SortFacts.

Lemma acquire_free_succeeds (locks : gmap string LockTable.Lock) g p now :
  locks !! g = None -> (LockTable.acquireCommandLock locks g p now).1 = true.
Proof. intros H. unfold LockTable.acquireCommandLock. by rewrite H. Qed.

Lemma acquire_own_succeeds (locks : gmap string LockTable.Lock) g p now e :
  locks !! g = Some e -> LockTable.botId e = p ->
  (LockTable.acquireCommandLock locks g p now).1 = true.
Proof.
  intros H Hp. unfold LockTable.acquireCommandLock. rewrite H.
  destruct (LockTable.expired now e); [done|].
  by rewrite bool_decide_eq_true_2.
Qed.

(** A probe that got the lock leaves the guild's lock free once released. *)
Lemma probe_release_free (locks : gmap string LockTable.Lock) g p now :
  (LockTable.acquireCommandLock locks g p now).1 = true ->
  LockTable.releaseCommandLock (LockTable.acquireCommandLock locks g p now).2 g p
    !! g = None.
Proof.
  unfold LockTable.acquireCommandLock, LockTable.releaseCommandLock.
  destruct (locks !! g) as [e|] eqn:He.
  - destruct (LockTable.expired now e).
    + simpl. rewrite lookup_insert_eq. simpl.
      rewrite bool_decide_eq_true_2 by done. by rewrite lookup_delete_eq.
    + case_bool_decide as Hown; simpl; [|done]. intros _.
      rewrite He, bool_decide_eq_true_2 by done. by rewrite lookup_delete_eq.
  - simpl. rewrite lookup_insert_eq. simpl.
    rewrite bool_decide_eq_true_2 by done. by rewrite lookup_delete_eq.
Qed.

(** After a lock check that lets the evaluation go on, and with the table
    untouched since, this bot's acquisition succeeds. *)
Lemma lockCheck_then_acquire bots clock client g locks locks1 now :
  lockCheck (Some bots) clock client g locks = (true, locks1) ->
  (LockTable.acquireCommandLock locks1 g (botId client) now).1 = true.
Proof.
  unfold lockCheck.
  destruct (LockTable.hasCommandLock locks g (botId client) (atHasLock clock))
    as [has l1] eqn:Hhas.
  destruct has; simpl.
  - intros [= <-]. unfold LockTable.hasCommandLock in Hhas.
    destruct (locks !! g) as [e|] eqn:He; [|done].
    destruct (LockTable.expired (atHasLock clock) e); [done|].
    injection Hhas as Hown <-. apply bool_decide_eq_true in Hown.
    by apply (acquire_own_succeeds locks g _ now e).
  - destruct (LockTable.acquireCommandLock l1 g (botId client) (atProbe clock))
      as [got l2] eqn:Hprobe.
    destruct got; simpl; [|done]. intros [= <-].
    apply acquire_free_succeeds.
    pose proof (probe_release_free l1 g (botId client) (atProbe clock)) as Hfree.
    rewrite Hprobe in Hfree. by apply Hfree.
Qed.

(** The decision of [takeOver]. *)
Lemma takeOver_decision localeCompare bots clock client g userVC locks :
  (takeOver localeCompare bots clock client g userVC locks).1 = true <->
  (exists f, List.find (isAvailable g userVC) (failoverBots localeCompare bots)
             = Some f /\ botId f.2 = botId client) /\
  (LockTable.acquireCommandLock locks g (botId client) (atAcquire clock)).1 = true.
Proof.
  unfold takeOver.
  destruct (List.find _ _) as [f|]; [|split; [done|by intros [[f [? _]] _]]].
  case_bool_decide as Hme.
  - destruct (LockTable.acquireCommandLock locks g (botId client) (atAcquire clock))
      as [got l1]; destruct got; simpl.
    + split; [|done]. intros _. split; [by exists f|done].
    + split; [done|]. by intros [_ ?].
  - simpl. split; [done|]. intros [(f' & [= <-] & Hf') _]. done.
Qed.

(** The evaluation of a failover bot that reaches the takeover step. *)
Lemma shouldHandleCommand_reaches_takeOver localeCompare bots store interleaved
    clock client g userVC locks locks1 mainBot mainPlayer :
  isMainBot client = false ->
  truthy userVC = true ->
  lockCheck (Some bots) clock client g locks = (true, locks1) ->
  match getPlayer client g with
  | Some p => truthy (voiceChannelId p)
  | None => false
  end = false ->
  activeOnBot (GuildAssignment.findById store g) (botId client) = false ->
  findMainBot bots = Some mainBot ->
  getPlayer mainBot g = Some mainPlayer ->
  truthy (voiceChannelId mainPlayer) = true ->
  voiceChannelId mainPlayer <> userVC ->
  shouldHandleCommand localeCompare (Some bots) store interleaved clock client g
    true userVC locks
  = takeOver localeCompare bots clock client g userVC (interleaved locks1).
Proof.
  intros Hfail Huser Hcheck Hown Hassign Hmain Hplayer Hbusy Hother.
  unfold shouldHandleCommand. rewrite Hfail, Hcheck, Huser. simpl.
  assert (inOtherChannel (getPlayer client g) userVC = false) as ->.
  { unfold inOtherChannel. destruct (getPlayer client g) as [p|]; [|done].
    by rewrite Hown. }
  rewrite Hown. unfold failoverDecision. rewrite Hassign, Huser, Hmain. simpl.
  unfold getPlayer in Hplayer.
  destruct (lavalink mainBot) as [lm|]; [|done]. simpl in Hplayer.
  rewrite Hplayer, Hbusy. simpl.
  by rewrite bool_decide_eq_false_2.
Qed.

End RouterFacts.

Module RouterOrderFacts.
Import Cluster Router SortFacts RouterFacts.

Lemma codeCompare_le a b : codeCompare a b <= 0 <-> String.leb a b = true.
Proof.
  unfold codeCompare, String.leb. destruct (String.compare a b); split; try done; lia.
Qed.

(** The comparison by character codes orders any set of ids. *)
Lemma codeCompare_ordersIds ids : ordersIds codeCompare ids.
Proof.
  split; [|split].
  - intros a b. rewrite !codeCompare_le. apply String.leb_total.
  - intros a b c. rewrite !codeCompare_le. intros Hab Hbc.
    apply Is_true_true. apply Is_true_true in Hab, Hbc.
    exact (transitivity (R := String.le) Hab Hbc).
  - intros a b _ _. rewrite !codeCompare_le. apply String.leb_antisym.
Qed.

(** Under a comparator that orders the ids of a well-formed cluster, the
    loop of the takeover step stops at this bot exactly when this bot is
    the first available failover in ascending order of the ids. *)
Lemma takeOver_first_available localeCompare bots client g userVC :
  ordersIds localeCompare bots.*1 -> wellFormed bots ->
  (exists f, List.find (isAvailable g userVC) (failoverBots localeCompare bots)
             = Some f /\ botId f.2 = botId client) <->
  firstAvailableFailover localeCompare (isAvailable g userVC) bots (botId client).
Proof.
  intros (Htotal & Htrans & Hanti) [_ Hkeys].
  rewrite Forall_forall in Hkeys.
  set (cmp := λ a b : string * BotClient, localeCompare a.1 b.1).
  assert (forall a b, cmp a b <= 0 \/ cmp b a <= 0) as Ctotal
    by (intros a b; apply Htotal).
  assert (forall a b c, cmp a b <= 0 -> cmp b c <= 0 -> cmp a c <= 0) as Ctrans
    by (intros a b c; apply Htrans).
  assert (forall f, f ∈ failoverBots localeCompare bots <->
                    f ∈ bots /\ isMainBot f.2 = false) as Hmem.
  { intros f. unfold failoverBots. rewrite jsSort_elem_of, filter_elem_of.
    by rewrite negb_true_iff. }
  pose proof (jsSort_ascending cmp Ctotal Ctrans
                (List.filter (λ kc, negb (isMainBot kc.2)) bots)) as Hasc.
  fold (failoverBots localeCompare bots) in Hasc.
  split.
  - intros ([k c] & Hfind & Hme).
    destruct (find_ascending_least cmp Ctotal (isAvailable g userVC) _ _ Hasc Hfind)
      as (Hin & Hav & Hleast).
    apply Hmem in Hin as [Hin Hnm]. simpl in *.
    pose proof (Hkeys _ Hin) as Hk. simpl in Hk.
    rewrite <- Hme, Hk. split.
    + by exists c.
    + intros id' c' Hin' Hnm' Hav'.
      apply (Hleast (id', c')); [|done]. by apply Hmem.
  - intros [(c & Hin & Hnm & Hav) Hleast].
    destruct (List.find (isAvailable g userVC) (failoverBots localeCompare bots))
      as [[k c0]|] eqn:Hfind.
    + exists (k, c0). split; [done|].
      destruct (find_ascending_least cmp Ctotal (isAvailable g userVC) _ _ Hasc Hfind)
        as (Hin0 & Hav0 & Hleast0).
      apply Hmem in Hin0 as [Hin0 Hnm0]. simpl in *.
      pose proof (Hkeys _ Hin0) as Hk. simpl in Hk. rewrite Hk.
      apply Hanti.
      * apply list_elem_of_fmap. by exists (k, c0).
      * apply list_elem_of_fmap. by exists (botId client, c).
      * apply (Hleast0 (botId client, c)); [|done]. by apply Hmem.
      * by apply (Hleast k c0).
    + exfalso. rewrite find_none_elem_of in Hfind.
      specialize (Hfind (botId client, c)). rewrite Hav in Hfind.
      assert (true = false) by (apply Hfind; by apply Hmem). done.
Qed.

End RouterOrderFacts.

Module RouterClaims.
Import Cluster Router SortFacts RouterFacts RouterOrderFacts.

(** C3, as the code has it.  A non-main bot evaluates a music command and
    reaches the takeover step: the requester is in a voice channel, the
    lock check found no lock of another bot, this bot has no player in a
    voice channel for the guild, no active assignment names this bot, and
    the main bot has a player for the guild in another voice channel than
    the requester's.  The comparator orders the bot ids and every bot is
    stored under its id.  Then:
    - the bot handles the command if and only if it is the first, in
      ascending id order, of the non-main bots that are available for the
      guild, and its lock acquisition succeeds; a bot is available when it
      has no player for the guild, or its player is in no voice channel, or
      its player is in the requester's channel;
    - when the lock table is not touched while the evaluation is suspended,
      the acquisition succeeds, so being that first available bot decides;
    - with two idle non-main bots p2 before p3 and no other, p2 handles
      when it gets the lock and p3 defers. *)
Theorem failover_takeover_determinism
    (localeCompare : string -> string -> Z)
    (bots : list (string * BotClient))
    (store : gmap string GuildAssignment.Assignment)
    (interleaved : gmap string LockTable.Lock -> gmap string LockTable.Lock)
    (clock : Clock) (client : BotClient) (g : string) (userVC : option string)
    (locks locks1 : gmap string LockTable.Lock)
    (mainBot : BotClient) (mainPlayer : Player) :
  ordersIds localeCompare bots.*1 -> wellFormed bots ->
  isMainBot client = false ->
  truthy userVC = true ->
  lockCheck (Some bots) clock client g locks = (true, locks1) ->
  match getPlayer client g with
  | Some p => truthy (voiceChannelId p)
  | None => false
  end = false ->
  activeOnBot (GuildAssignment.findById store g) (botId client) = false ->
  findMainBot bots = Some mainBot ->
  getPlayer mainBot g = Some mainPlayer ->
  truthy (voiceChannelId mainPlayer) = true ->
  voiceChannelId mainPlayer <> userVC ->
  let decision :=
    shouldHandleCommand localeCompare (Some bots) store interleaved clock client
      g true userVC locks in
  let acquisition :=
    LockTable.acquireCommandLock (interleaved locks1) g (botId client)
      (atAcquire clock) in
  let first :=
    firstAvailableFailover localeCompare (isAvailable g userVC) bots in
  (decision.1 = true <-> first (botId client) /\ acquisition.1 = true) /\
  (interleaved locks1 = locks1 ->
     (decision.1 = true <-> first (botId client))) /\
  (forall p2 c2 p3 c3,
     p2 <> p3 -> (p2, c2) ∈ bots -> (p3, c3) ∈ bots ->
     isMainBot c2 = false -> isMainBot c3 = false ->
     getPlayer c2 g = None -> getPlayer c3 g = None ->
     (forall f, f ∈ bots -> isMainBot f.2 = false -> f = (p2, c2) \/ f = (p3, c3)) ->
     localeCompare p2 p3 <= 0 ->
     (botId client = p2 -> decision.1 = acquisition.1) /\
     (botId client = p3 -> decision.1 = false)).
Proof.
  intros Hord Hwf Hfail Huser Hcheck Hown Hassign Hmain Hplayer Hbusy Hother.
  cbv zeta.
  rewrite (shouldHandleCommand_reaches_takeOver localeCompare bots store
             interleaved clock client g userVC locks locks1 mainBot mainPlayer)
    by done.
  assert ((takeOver localeCompare bots clock client g userVC (interleaved locks1)).1
          = true <->
          firstAvailableFailover localeCompare (isAvailable g userVC) bots
            (botId client) /\
          (LockTable.acquireCommandLock (interleaved locks1) g (botId client)
             (atAcquire clock)).1 = true) as Hiff.
  { rewrite takeOver_decision. by rewrite (takeOver_first_available _ _ _ _ _ Hord Hwf). }
  split; [done|]. split.
  - intros Hquiet. rewrite Hiff, Hquiet.
    pose proof (lockCheck_then_acquire bots clock client g locks locks1
                  (atAcquire clock) Hcheck) as Hacq.
    tauto.
  - intros p2 c2 p3 c3 Hne Hin2 Hin3 Hnm2 Hnm3 Hidle2 Hidle3 Honly Hle.
    destruct Hord as (Htotal & Htrans & Hanti).
    assert (isAvailable g userVC (p2, c2) = true) as Hav2
      by (unfold isAvailable; simpl; by rewrite Hidle2).
    assert (isAvailable g userVC (p3, c3) = true) as Hav3
      by (unfold isAvailable; simpl; by rewrite Hidle3).
    split.
    + intros Hme.
      assert (firstAvailableFailover localeCompare (isAvailable g userVC) bots
                (botId client)) as Hfirst.
      { rewrite Hme. split; [by exists c2|].
        intros id' c' Hin' Hnm' _.
        destruct (Honly (id', c') Hin' Hnm') as [[= -> ->]|[= -> ->]]; [|done].
        by destruct (Htotal p2 p2). }
      destruct (LockTable.acquireCommandLock (interleaved locks1) g (botId client)
                  (atAcquire clock)).1 eqn:Hacq.
      * by apply Hiff.
      * apply not_true_is_false. intros Hdec. apply Hiff in Hdec as [_ ?]. done.
    + intros Hme. apply not_true_is_false. intros Hdec.
      apply Hiff in Hdec as [[_ Hleast] _]. rewrite Hme in Hleast.
      apply Hne. apply Hanti.
      * apply list_elem_of_fmap. by exists (p2, c2).
      * apply list_elem_of_fmap. by exists (p3, c3).
      * done.
      * by apply (Hleast p2 c2).
Qed.

(** C3 on the cluster where the main bot is busy in vc1, the requester is
    in vc2 and bot-2 and bot-3 are idle: bot-2 handles, bot-3 defers. *)
Lemma failover_takeover_determinism_witness :
  (shouldHandleCommand codeCompare (Some Scenario.busyCluster) ∅ id
     (Scenario.clockAt 0) Scenario.bot2 "guild1" true (Some "vc2") ∅).1 = true /\
  (shouldHandleCommand codeCompare (Some Scenario.busyCluster) ∅ id
     (Scenario.clockAt 0) Scenario.bot3 "guild1" true (Some "vc2") ∅).1 = false.
Proof.
  assert (forall f, f ∈ Scenario.busyCluster -> isMainBot f.2 = false ->
                    f = ("bot-2", Scenario.bot2) \/ f = ("bot-3", Scenario.bot3))
    as Honly.
  { intros f Hin. unfold Scenario.busyCluster in Hin.
    rewrite !elem_of_cons in Hin.
    destruct Hin as [->|[->|[->|Hin]]]; [discriminate|by left|by right|].
    by apply elem_of_nil in Hin. }
  assert (wellFormed Scenario.busyCluster) as Hwf.
  { split; [compute_done|]. by repeat constructor. }
  assert (("bot-2", Scenario.bot2) ∈ Scenario.busyCluster) as Hin2
    by (apply list_elem_of_further, list_elem_of_here).
  assert (("bot-3", Scenario.bot3) ∈ Scenario.busyCluster) as Hin3
    by (do 2 apply list_elem_of_further; apply list_elem_of_here).
  split.
  - destruct (failover_takeover_determinism codeCompare Scenario.busyCluster ∅ id
                (Scenario.clockAt 0) Scenario.bot2 "guild1" (Some "vc2") ∅ ∅
                Scenario.bot1Busy {| voiceChannelId := Some "vc1" |})
      as (_ & _ & Hscenario);
      [apply codeCompare_ordersIds|done|reflexivity|reflexivity|reflexivity
      |reflexivity|reflexivity|reflexivity|reflexivity|reflexivity|discriminate|].
    destruct (Hscenario "bot-2" Scenario.bot2 "bot-3" Scenario.bot3) as [H2 _];
      [discriminate|done|done|reflexivity|reflexivity|reflexivity|reflexivity
      |done|by vm_compute|].
    rewrite H2; reflexivity.
  - destruct (failover_takeover_determinism codeCompare Scenario.busyCluster ∅ id
                (Scenario.clockAt 0) Scenario.bot3 "guild1" (Some "vc2") ∅ ∅
                Scenario.bot1Busy {| voiceChannelId := Some "vc1" |})
      as (_ & _ & Hscenario);
      [apply codeCompare_ordersIds|done|reflexivity|reflexivity|reflexivity
      |reflexivity|reflexivity|reflexivity|reflexivity|reflexivity|discriminate|].
    destruct (Hscenario "bot-2" Scenario.bot2 "bot-3" Scenario.bot3) as [_ H3];
      [discriminate|done|done|reflexivity|reflexivity|reflexivity|reflexivity
      |done|by vm_compute|].
    by apply H3.
Defined.

(** Whatever the order in which the three bots evaluate the command of the
    scenario, each on the lock table the previous ones left, the main bot
    and bot-3 defer and bot-2 handles. *)
Lemma failover_scenario_every_order :
  let eval (client : BotClient) (locks : gmap string LockTable.Lock) :=
    shouldHandleCommand codeCompare (Some Scenario.busyCluster) ∅ id
      (Scenario.clockAt 0) client "guild1" true (Some "vc2") locks in
  let run (order : list BotClient) :=
    (foldl (λ acc client,
              let '(r, locks) := eval client acc.2 in
              (acc.1 ++ [(botId client, r)], locks))
           ([], ∅) order).1 in
  forallb (λ order,
             forallb (λ br : string * bool,
                        bool_decide (br.2 = bool_decide (br.1 = "bot-2")))
                     (run order))
    (permutations [Scenario.bot1Busy; Scenario.bot2; Scenario.bot3]) = true.
Proof. cbv zeta. vm_compute. reflexivity. Qed.

(** C3 read to the letter fails when bot-2 holds a player that is in no
    voice channel: such a bot has a player, and not in the requester's
    channel, yet the code counts it as available.  bot-2 reaches the
    takeover step and handles although, to the letter, the first available
    failover is bot-3; and bot-3 defers although its lock acquisition
    would succeed. *)
Lemma failover_detached_player_counts_as_available :
  let bots := Scenario.detachedCluster in
  let first :=
    firstAvailableFailover codeCompare
      (noPlayerOrSameChannel "guild1" (Some "vc2")) bots in
  let decision (client : BotClient) :=
    shouldHandleCommand codeCompare (Some bots) ∅ id (Scenario.clockAt 0)
      client "guild1" true (Some "vc2") ∅ in
  lockCheck (Some bots) (Scenario.clockAt 0) Scenario.bot2Detached "guild1" ∅
    = (true, ∅) /\
  match getPlayer Scenario.bot2Detached "guild1" with
  | Some p => truthy (voiceChannelId p)
  | None => false
  end = false /\
  (decision Scenario.bot2Detached).1 = true /\
  ~ first "bot-2" /\
  first "bot-3" /\
  (decision Scenario.bot3).1 = false /\
  (LockTable.acquireCommandLock ∅ "guild1" "bot-3" 0).1 = true.
Proof.
  cbv zeta. split; [reflexivity|]. split; [reflexivity|].
  split; [reflexivity|]. split; [|split; [|split; reflexivity]].
  - intros [(c & Hin & _ & Hav) _]. unfold Scenario.detachedCluster in Hin.
    rewrite !elem_of_cons in Hin.
    destruct Hin as [[=]|[[= Hc]|[[=]|Hin]]].
    + subst c. discriminate Hav.
    + by apply elem_of_nil in Hin.
  - split.
    + exists Scenario.bot3. split; [|done].
      do 2 apply list_elem_of_further. apply list_elem_of_here.
    + intros id' c' Hin Hnm Hav. unfold Scenario.detachedCluster in Hin.
      rewrite !elem_of_cons in Hin.
      destruct Hin as [[= -> ->]|[[= -> ->]|[[= -> ->]|Hin]]];
        [discriminate|discriminate|by vm_compute|].
      by apply elem_of_nil in Hin.
Qed.

(** C9. The main bot's decision does not depend on the lock table: for
    the same command, cluster and assignment store, its evaluation returns
    the same boolean from any two lock tables, whatever the other bots do
    to the table meanwhile and whatever the clock reads.  When it is not
    busy in another channel and the guild is not active on another bot, it
    returns [true]; it does so even when its own lock acquisition fails,
    and the table is then left as it was found. *)
Theorem main_bot_decision_ignores_locks
    (localeCompare : string -> string -> Z)
    (orchestrator : option (list (string * BotClient)))
    (store : gmap string GuildAssignment.Assignment)
    (client : BotClient) (g : string) (isMusicCommand : bool)
    (userVC : option string)
    (interleaved1 interleaved2 : gmap string LockTable.Lock -> gmap string LockTable.Lock)
    (clock1 clock2 : Clock) (locks1 locks2 : gmap string LockTable.Lock) :
  isMainBot client = true ->
  let decide interleaved clock locks :=
    shouldHandleCommand localeCompare orchestrator store interleaved clock
      client g isMusicCommand userVC locks in
  (decide interleaved1 clock1 locks1).1 = (decide interleaved2 clock2 locks2).1 /\
  (isMusicCommand && truthy userVC &&
     inOtherChannel (getPlayer client g) userVC = false ->
   isMusicCommand &&
     activeOnOtherBot (GuildAssignment.findById store g) (botId client) = false ->
   (decide interleaved1 clock1 locks1).1 = true /\
   (isMusicCommand = true ->
    (LockTable.acquireCommandLock (interleaved1 locks1) g (botId client)
       (atAcquire clock1)).1 = false ->
    decide interleaved1 clock1 locks1 = (true, interleaved1 locks1))).
Proof.
  intros Hmain. cbv zeta. unfold shouldHandleCommand. rewrite Hmain. split.
  - destruct (isMusicCommand && truthy userVC &&
              inOtherChannel (getPlayer client g) userVC); [done|].
    destruct isMusicCommand; [|done].
    by destruct (activeOnOtherBot _ _).
  - intros -> Hassign. destruct isMusicCommand; [|done].
    simpl in Hassign. rewrite Hassign. split; [done|].
    intros _ Hfail. f_equal. unfold acquireIfPresent.
    destruct orchestrator; [|done].
    unfold LockTable.acquireCommandLock in *.
    destruct (interleaved1 locks1 !! g) as [e|]; [|done].
    destruct (LockTable.expired (atAcquire clock1) e); [done|].
    by destruct (negb (bool_decide (LockTable.botId e = botId client))).
Qed.

(** C9 on the idle main bot: with a free lock table and with bot-2 holding
    an unexpired lock on the guild, it decides the same, [true]; in the
    second case its acquisition fails and bot-2's lock stays. *)
Lemma main_bot_decision_ignores_locks_witness :
  let held : gmap string LockTable.Lock :=
    {[ "guild1" := {| LockTable.botId := "bot-2"; LockTable.timestamp := 0 |} ]} in
  let decide locks :=
    shouldHandleCommand codeCompare (Some Scenario.busyCluster) ∅ id
      (Scenario.clockAt 5) Scenario.bot1 "guild1" true (Some "vc1") locks in
  (decide ∅).1 = (decide held).1 /\
  (LockTable.acquireCommandLock held "guild1" "bot-1" 5).1 = false /\
  decide held = (true, held).
Proof.
  intros held decide.
  destruct (main_bot_decision_ignores_locks codeCompare (Some Scenario.busyCluster)
              ∅ Scenario.bot1 "guild1" true (Some "vc1") id id
              (Scenario.clockAt 5) (Scenario.clockAt 5) held ∅ eq_refl)
    as [Hsame Hfinal].
  destruct (Hfinal eq_refl eq_refl) as [_ Hkeeps].
  split; [symmetry; exact Hsame|]. split; [reflexivity|].
  apply Hkeeps; reflexivity.
Defined.

End RouterClaims.

(** * Further properties of the modelled code *)

(** ** The lock table *)

Module LockTableExtras.
Import LockTable LockTableFacts.

(** [acquireCommandLock] succeeds exactly when no other bot validly holds
    the guild's lock; [hasCommandLock] answers [true] exactly when the
    asking bot validly holds it; and an acquisition that fails leaves the
    table as it was. *)
Theorem acquire_succeeds_iff_no_other_holder (locks : gmap string Lock)
    (g p : string) (now : Z) :
  ((acquireCommandLock locks g p now).1 = true <->
     holder locks g now = None \/ holder locks g now = Some p) /\
  ((hasCommandLock locks g p now).1 = true <-> holder locks g now = Some p) /\
  ((acquireCommandLock locks g p now).1 = false ->
     (acquireCommandLock locks g p now).2 = locks).
Proof.
  split; [|split].
  - unfold acquireCommandLock, holder.
    destruct (locks !! g) as [e|]; [|by split; [left|]].
    destruct (expired now e); [by split; [left|]|].
    case_bool_decide as Hown; simpl.
    + split; [|done]. intros _. right. by rewrite Hown.
    + split; [done|]. intros [?|[= ?]]; done.
  - apply holdsLock_holder.
  - unfold acquireCommandLock.
    destruct (locks !! g) as [e|]; [|done].
    destruct (expired now e); [done|].
    by case_bool_decide.
Qed.

(** The lock operations on one guild never change the entry of another
    guild: after any sequence of acquire, release and hasLock calls, each
    on a guild other than [g'], the entry of [g'] is what it was. *)
Theorem lock_operations_leave_other_guilds (locks : gmap string Lock)
    (ops : list LockOp) (g' : string) :
  Forall (λ op, match op with
                | OpAcquire g _ _ | OpRelease g _ | OpHasLock g _ _ => g <> g'
                end) ops ->
  runOps locks ops !! g' = locks !! g'.
Proof.
  revert locks. induction ops as [|op ops IH]; intros locks Hall; [done|].
  apply Forall_cons in Hall as [Hop Hall]. unfold runOps in *. simpl.
  rewrite (IH _ Hall). destruct op as [g b now|g b|g b now]; simpl.
  - unfold acquireCommandLock. destruct (locks !! g) as [e|].
    + destruct (expired now e); simpl.
      * by rewrite lookup_insert_ne, lookup_delete_ne.
      * by case_bool_decide.
    + simpl. by rewrite lookup_insert_ne.
  - unfold releaseCommandLock. destruct (locks !! g) as [e|]; [|done].
    case_bool_decide; [|done]. by rewrite lookup_delete_ne.
  - unfold hasCommandLock. destruct (locks !! g) as [e|]; [|done].
    destruct (expired now e); simpl; [|done]. by rewrite lookup_delete_ne.
Qed.

(** Bot A's lock on guild2 survives what bots B and C do on guild1. *)
Lemma lock_operations_leave_other_guilds_witness :
  let locks : gmap string Lock :=
    {[ "guild2" := {| botId := "A"; timestamp := 0 |} ]} in
  runOps locks [OpAcquire "guild1" "B" 5; OpHasLock "guild1" "C" 20000;
                OpRelease "guild1" "B"] !! "guild2"
  = Some {| botId := "A"; timestamp := 0 |}.
Proof.
  intros locks.
  rewrite (lock_operations_leave_other_guilds locks _ "guild2"); [reflexivity|].
  repeat constructor; discriminate.
Defined.

(** The deletion that [hasCommandLock] makes of an expired entry cannot be
    observed by the lock functions: a later [acquireCommandLock] on the
    guild returns the same result and table, and a later [hasCommandLock]
    the same answer, as without the call. *)
Theorem hasCommandLock_deletion_unobservable (locks : gmap string Lock)
    (g p q : string) (t1 t2 : Z) :
  t1 <= t2 ->
  acquireCommandLock (hasCommandLock locks g p t1).2 g q t2
  = acquireCommandLock locks g q t2 /\
  (hasCommandLock (hasCommandLock locks g p t1).2 g q t2).1
  = (hasCommandLock locks g q t2).1.
Proof.
  intros Hle.
  assert ((hasCommandLock locks g p t1).2 = locks \/
          exists e, locks !! g = Some e /\ expired t1 e = true /\
                    (hasCommandLock locks g p t1).2 = delete g locks) as Hafter.
  { unfold hasCommandLock. destruct (locks !! g) as [e|]; [|by left].
    destruct (expired t1 e) eqn:Hex1; [|by left]. right. by exists e. }
  destruct Hafter as [->|(e & He & Hex1 & ->)]; [done|].
  assert (expired t2 e = true) as Hex2.
  { apply expired_true. apply expired_true in Hex1. lia. }
  unfold acquireCommandLock, hasCommandLock.
  by rewrite lookup_delete_eq, He, Hex2.
Qed.

(** bot-2's lock of time 0 has expired at time 10001; whether or not
    bot-1 asked [hasCommandLock] then, bot-3 gets the lock at 10002. *)
Lemma hasCommandLock_deletion_unobservable_witness :
  let locks : gmap string Lock :=
    {[ "guild1" := {| botId := "bot-2"; timestamp := 0 |} ]} in
  acquireCommandLock (hasCommandLock locks "guild1" "bot-1" 10001).2
    "guild1" "bot-3" 10002
  = (true, {[ "guild1" := {| botId := "bot-3"; timestamp := 10002 |} ]}).
Proof.
  intros locks.
  destruct (hasCommandLock_deletion_unobservable locks "guild1" "bot-1" "bot-3"
              10001 10002) as [-> _]; [lia|].
  by vm_compute.
Defined.

(** Acquiring a lock and releasing it gives back the table: when the guild
    has no entry, [releaseCommandLock] after [acquireCommandLock] by the
    same bot restores the table exactly; and after any successful
    acquisition, the release leaves the guild without entry, so that any
    bot can acquire it next. *)
Theorem acquire_release_round_trip (locks : gmap string Lock) (g p : string)
    (now : Z) :
  (acquireCommandLock locks g p now).1 = true ->
  let released :=
    releaseCommandLock (acquireCommandLock locks g p now).2 g p in
  released !! g = None /\
  (forall q later, (acquireCommandLock released g q later).1 = true) /\
  (locks !! g = None -> released = locks).
Proof.
  intros Hgot. cbv zeta.
  assert (releaseCommandLock (acquireCommandLock locks g p now).2 g p !! g = None)
    as Hfree.
  { unfold acquireCommandLock, releaseCommandLock in *.
    destruct (locks !! g) as [e|] eqn:He.
    - destruct (expired now e).
      + simpl. rewrite lookup_insert_eq. simpl.
        rewrite bool_decide_eq_true_2 by done. by rewrite lookup_delete_eq.
      + case_bool_decide as Hown; simpl in *; [|done].
        rewrite He, bool_decide_eq_true_2 by done. by rewrite lookup_delete_eq.
    - simpl. rewrite lookup_insert_eq. simpl.
      rewrite bool_decide_eq_true_2 by done. by rewrite lookup_delete_eq. }
  split; [done|]. split.
  - intros q later. unfold acquireCommandLock at 1. by rewrite Hfree.
  - intros Hnone. rewrite (acquire_absent _ _ _ _ Hnone). simpl.
    unfold releaseCommandLock. rewrite lookup_insert_eq. simpl.
    rewrite bool_decide_eq_true_2 by done.
    rewrite delete_insert_eq. by apply delete_id.
Qed.

(** On a table that holds another guild's lock, bot-2 acquires and
    releases the lock of guild1: the table is as before. *)
Lemma acquire_release_round_trip_witness :
  let locks : gmap string Lock :=
    {[ "guild2" := {| botId := "bot-1"; timestamp := 0 |} ]} in
  releaseCommandLock (acquireCommandLock locks "guild1" "bot-2" 7).2
    "guild1" "bot-2" = locks.
Proof.
  intros locks.
  apply (acquire_release_round_trip locks "guild1" "bot-2" 7); reflexivity.
Defined.

End LockTableExtras.

(** ** The assignment store and the sessions *)

Module StoreFacts.
Import GuildAssignment Sessions.

Lemma sameOwner_refl a : sameOwner a a.
Proof. by repeat split. Qed.

Lemma sameOwner_trans a b c : sameOwner a b -> sameOwner b c -> sameOwner a c.
Proof.
  unfold sameOwner. intros (?&?&?&?&?) (?&?&?&?&?).
  repeat split; congruence.
Qed.

(** Saving under [k] a new version of the row of [k] that keeps the
    ownership record keeps every row's ownership record. *)
Lemma save_sameOwner (store : gmap string Assignment) k a0 a0' g a :
  store !! k = Some a0 -> sameOwner a0 a0' -> store !! g = Some a ->
  exists a', save store k a0' !! g = Some a' /\ sameOwner a a'.
Proof.
  intros Hk Hsame Hg. unfold save. destruct (decide (k = g)) as [->|Hne].
  - rewrite lookup_insert_eq. exists a0'. split; [done|]. congruence.
  - rewrite lookup_insert_ne by done. exists a. split; [done|apply sameOwner_refl].
Qed.

Lemma deactivateAssignment_sameOwner (store : gmap string Assignment) now k g a :
  store !! g = Some a ->
  exists a', deactivateAssignment store now k !! g = Some a' /\ sameOwner a a'.
Proof.
  intros Hg. unfold deactivateAssignment, findById.
  destruct (store !! k) as [a0|] eqn:Hk.
  - apply (save_sameOwner store k a0); [done|by repeat split|done].
  - exists a. split; [done|apply sameOwner_refl].
Qed.

Lemma getOrCreate_sameOwner (store : gmap string Assignment) k bot cid reason
    now g a :
  store !! g = Some a ->
  (getOrCreateAssignment store k bot cid reason now).2 !! g = Some a.
Proof.
  intros Hg. unfold getOrCreateAssignment, findById.
  destruct (store !! k) as [a0|] eqn:Hk; [done|]. simpl.
  rewrite lookup_insert_ne; [done|]. intros ->. congruence.
Qed.

Lemma getOrCreate_lookup (store : gmap string Assignment) k bot cid reason now :
  (getOrCreateAssignment store k bot cid reason now).2 !! k
  = Some (getOrCreateAssignment store k bot cid reason now).1.
Proof.
  unfold getOrCreateAssignment, findById.
  destruct (store !! k) as [a0|] eqn:Hk; [done|]. simpl.
  by rewrite lookup_insert_eq.
Qed.

Lemma startSession_sameOwner (store : gmap string Assignment) now k bot cid vc tc
    g a :
  store !! g = Some a ->
  exists a', startSession store now k bot cid vc tc !! g = Some a' /\
             sameOwner a a'.
Proof.
  intros Hg. unfold startSession, findById. rewrite getOrCreate_lookup.
  eapply save_sameOwner.
  - apply getOrCreate_lookup.
  - by repeat split.
  - by apply getOrCreate_sameOwner.
Qed.

Lemma handleBotVoiceChange_sameOwner (store : gmap string Assignment) now k old
    new hasPlayer g a :
  store !! g = Some a ->
  exists a', handleBotVoiceChange store now k old new hasPlayer !! g = Some a' /\
             sameOwner a a'.
Proof.
  intros Hg. unfold handleBotVoiceChange, findById.
  destruct (truthy old && negb (truthy new)).
  { by apply deactivateAssignment_sameOwner. }
  destruct (truthy old && truthy new && negb (bool_decide (old = new))).
  { destruct hasPlayer; [|exists a; split; [done|apply sameOwner_refl]].
    destruct (store !! k) as [a0|] eqn:Hk.
    - apply (save_sameOwner store k a0); [done|by repeat split|done].
    - exists a. split; [done|apply sameOwner_refl]. }
  destruct (negb (truthy old) && truthy new);
    [|exists a; split; [done|apply sameOwner_refl]].
  destruct (store !! k) as [a0|] eqn:Hk.
  - apply (save_sameOwner store k a0); [done|by repeat split|done].
  - exists a. split; [done|apply sameOwner_refl].
Qed.

Lemma sweep_sameOwner (store : gmap string Assignment) now threshold g a :
  store !! g = Some a ->
  exists a', releaseInactiveAssignments store now threshold !! g = Some a' /\
             sameOwner a a'.
Proof.
  intros Hg. unfold releaseInactiveAssignments. rewrite lookup_fmap, Hg. simpl.
  eexists. split; [done|]. unfold sweepOne.
  destruct (matchesInactive _ a); by repeat split.
Qed.

Lemma assignBot_sameOwner options botCluster (store : gmap string Assignment)
    now k g a :
  store !! g = Some a ->
  exists a', (LoadBalancer.assignBot options botCluster store now k).1.2 !! g
             = Some a' /\ sameOwner a a'.
Proof.
  intros Hg. unfold LoadBalancer.assignBot, findById.
  destruct (LoadBalancer.stickyOwner botCluster (store !! k)) as [[a0 c]|] eqn:Hs.
  - simpl. apply LoadBalancerFacts.stickyOwner_Some in Hs as (Hk & _).
    apply (save_sameOwner store k a0); [done|by repeat split|done].
  - destruct (LoadBalancer._selectBot options botCluster) as [[sid sc]|];
      [|exists a; split; [done|apply sameOwner_refl]].
    pose proof (getOrCreate_sameOwner store k sid (Cluster.clientId sc)
                  (match store !! k with
                   | Some _ => ReasonFailover
                   | None => ReasonAuto
                   end) now g a Hg) as Hkeep.
    destruct (getOrCreateAssignment store k sid _ _ now) as [a1 s1]. simpl in *.
    exists a. split; [done|apply sameOwner_refl].
Qed.

(** Every write that is not a forced assignment keeps the rows and their
    ownership records. *)
Lemma applyOp_sameOwner (store : gmap string Assignment) now op g a :
  isForceAssign op = false -> store !! g = Some a ->
  exists a', applyOp store (now, op) !! g = Some a' /\ sameOwner a a'.
Proof.
  intros Hop Hg. destruct op; simpl in *; try done.
  - by apply assignBot_sameOwner.
  - by apply deactivateAssignment_sameOwner.
  - by apply sweep_sameOwner.
  - by apply startSession_sameOwner.
  - by apply deactivateAssignment_sameOwner.
  - by apply handleBotVoiceChange_sameOwner.
Qed.

(** No write deletes a row. *)
Lemma applyOp_keeps_rows (store : gmap string Assignment) timed g :
  is_Some (store !! g) -> is_Some (applyOp store timed !! g).
Proof.
  destruct timed as [now op]. intros [a Hg].
  destruct (isForceAssign op) eqn:Hop.
  - destruct op; try done. unfold applyOp, LoadBalancer.forceAssign. simpl.
    destruct (Cluster.get botCluster targetBotId) as [c|];
      [|simpl; by exists a].
    destruct (negb (Cluster.isReady c)); simpl; [by exists a|].
    unfold reassignGuild, findById.
    destruct (store !! guildId) as [a0|] eqn:Hk; simpl.
    + destruct (decide (guildId = g)) as [->|Hne].
      * rewrite lookup_insert_eq. by eexists.
      * rewrite lookup_insert_ne by done. by exists a.
    + rewrite lookup_insert_ne; [by exists a|]. intros ->. congruence.
  - destruct (applyOp_sameOwner store now op g a Hop Hg) as (a' & Ha' & _).
    by exists a'.
Qed.

End StoreFacts.

Module StoreExtras.
Import GuildAssignment Sessions StoreFacts.


(** Nothing but a forced assignment changes who owns a guild.  Over any
    sequence of writes to the assignment store (assignBot, releaseBot,
    the stale sweep, the play command's session start, deactivation,
    voice state changes, forceAssign) no row is ever deleted; and when the
    sequence has no forceAssign, every row keeps its owner, client id,
    reason, date of assignment and previous owner. *)
Theorem ownership_changes_only_by_forceAssign (store : gmap string Assignment)
    (ops : list (Z * StoreOp)) :
  (forall g, is_Some (store !! g) -> is_Some (foldl applyOp store ops !! g)) /\
  (Forall (λ timed, isForceAssign timed.2 = false) ops ->
   forall g a, store !! g = Some a ->
     exists a', foldl applyOp store ops !! g = Some a' /\ sameOwner a a').
Proof.
  split.
  - revert store. induction ops as [|op ops IH]; intros store g Hg; [done|].
    simpl. apply IH. by apply applyOp_keeps_rows.
  - revert store. induction ops as [|[now op] ops IH]; intros store Hall g a Hg.
    + exists a. split; [done|apply sameOwner_refl].
    + apply Forall_cons in Hall as [Hop Hall]. simpl in Hop.
      destruct (applyOp_sameOwner store now op g a Hop Hg) as (a1 & Ha1 & Hs1).
      destruct (IH _ Hall g a1 Ha1) as (a' & Ha' & Hs'). simpl.
      exists a'. split; [done|]. by apply (sameOwner_trans a a1 a').
Qed.

(** The play command's session start never changes the recorded owner.
    Afterwards the guild's row exists, is active and carries the caller's
    voice and text channels; the caller is its owner when no row existed,
    and otherwise the owner is whoever was recorded.  So the router's
    assignment rule recognises the caller exactly when there was no row or
    the row already named the caller.  No other guild's row is touched. *)
Theorem startSession_keeps_recorded_owner (store : gmap string Assignment)
    (now : Z) (g bot cid vc tc : string) :
  let store' := startSession store now g bot cid vc tc in
  (exists a', store' !! g = Some a' /\
     isActive a' = true /\ voiceChannelId a' = Some vc /\
     textChannelId a' = Some tc /\ lastActivity a' = now /\
     (store !! g = None -> assignedBotId a' = bot) /\
     (forall a, store !! g = Some a -> assignedBotId a' = assignedBotId a)) /\
  (Router.activeOnBot (findById store' g) bot = true <->
     store !! g = None \/ exists a, store !! g = Some a /\ assignedBotId a = bot) /\
  (forall g', g' <> g -> store' !! g' = store !! g').
Proof.
  cbv zeta. unfold startSession, getOrCreateAssignment, findById, save.
  destruct (store !! g) as [a|] eqn:Hg; simpl.
  - rewrite Hg. rewrite lookup_insert_eq. split; [|split].
    + eexists. split; [done|]. simpl. repeat split; [done|]. by intros ? [= <-].
    + simpl. rewrite bool_decide_eq_true. split.
      * intros Hb. right. by exists a.
      * intros [?|(a0 & [= <-] & ?)]; done.
    + intros g' Hne. by rewrite lookup_insert_ne.
  - rewrite lookup_insert_eq, lookup_insert_eq. split; [|split].
    + eexists. split; [done|]. simpl. by repeat split.
    + simpl. rewrite bool_decide_eq_true. split; [by left|done].
    + intros g' Hne. by rewrite !lookup_insert_ne.
Qed.

(** A sticky [assignBot] keeps a live assignment from being swept: after
    it has touched the row at time [t], a sweep at [now] with
    [now - threshold <= t] leaves the row as it is, still active; whereas
    without the touch the sweep deactivates a row whose last activity is
    older than [now - threshold]. *)
Theorem sticky_assign_shields_from_sweep (options : LoadBalancer.Options)
    (botCluster : list (string * Cluster.BotClient))
    (store : gmap string Assignment) (t : Z) (K : string) (a : Assignment)
    (c : Cluster.BotClient) (now : Z) (threshold : option Z) :
  store !! K = Some a -> isActive a = true ->
  Cluster.get botCluster (assignedBotId a) = Some c -> Cluster.isReady c = true ->
  now - default 300000 threshold <= t ->
  let store' := (LoadBalancer.assignBot options botCluster store t K).1.2 in
  releaseInactiveAssignments store' now threshold !! K = store' !! K /\
  (exists a', store' !! K = Some a' /\ isActive a' = true) /\
  (lastActivity a < now - default 300000 threshold ->
   exists a'', releaseInactiveAssignments store now threshold !! K = Some a'' /\
               isActive a'' = false).
Proof.
  intros Ha Hact Hget Hready Hrecent. cbv zeta.
  assert (LoadBalancer.stickyOwner botCluster (store !! K) = Some (a, c)) as Hs
    by by apply LoadBalancerFacts.stickyOwner_Some.
  unfold LoadBalancer.assignBot, findById. rewrite Hs. simpl. unfold save.
  unfold releaseInactiveAssignments. rewrite !lookup_fmap, lookup_insert_eq, Ha.
  simpl. unfold sweepOne, matchesInactive. simpl. split; [|split].
  - rewrite Hact. simpl.
    destruct (t <? now - default 300000 threshold) eqn:E; [|done].
    apply Z.ltb_lt in E. lia.
  - by eexists.
  - intros Hold. rewrite Hact. simpl.
    apply Z.ltb_lt in Hold. rewrite Hold. by eexists.
Qed.

(** guild1 was last active at time 0.  A sweep at 400000 with the default
    threshold deactivates it; after a sticky [assignBot] at 200000 the
    same sweep leaves it active. *)
Lemma sticky_assign_shields_from_sweep_witness :
  let a := activate (create "bot-1" "111" ReasonAuto 0) (Some "vc1") (Some "tc1") 0 in
  let store : gmap string Assignment := {[ "guild1" := a ]} in
  let store' :=
    (LoadBalancer.assignBot Scenario.defaultOptions Scenario.busyCluster store
       200000 "guild1").1.2 in
  releaseInactiveAssignments store' 400000 None !! "guild1" = store' !! "guild1" /\
  (exists a', store' !! "guild1" = Some a' /\ isActive a' = true) /\
  (exists a'', releaseInactiveAssignments store 400000 None !! "guild1" = Some a'' /\
               isActive a'' = false).
Proof.
  intros a store store'.
  destruct (sticky_assign_shields_from_sweep Scenario.defaultOptions
              Scenario.busyCluster store 200000 "guild1" a Scenario.bot1Busy
              400000 None) as (H1 & H2 & H3);
    [reflexivity|reflexivity|reflexivity|reflexivity|simpl; lia|].
  split; [exact H1|]. split; [exact H2|]. apply H3. simpl. lia.
Defined.

End StoreExtras.

(** ** The load balancer *)

Module SelectionFacts.
Import Cluster LoadBalancer SortFacts.

Lemma get_elem_of (botCluster : list (string * BotClient)) id c :
  get botCluster id = Some c -> (id, c) ∈ botCluster.
Proof.
  induction botCluster as [|[k c0] rest IH]; simpl; [done|].
  case_bool_decide as Hk.
  - intros [= <-]. subst k. apply list_elem_of_here.
  - intros H. apply list_elem_of_further. by apply IH.
Qed.

Lemma jsSort_nil {A} (cmp : A -> A -> Z) l : jsSort cmp l = [] <-> l = [].
Proof.
  split; [|by intros ->]. intros Hnil. destruct l as [|x l]; [done|].
  assert (x ∈ jsSort cmp (x :: l)) as Hin
    by (apply jsSort_elem_of, list_elem_of_here).
  rewrite Hnil in Hin. by apply elem_of_nil in Hin.
Qed.

Lemma filter_ready_nil (botCluster : list (string * BotClient)) :
  List.filter (λ kc, isReady kc.2) botCluster = [] <->
  forall kc, kc ∈ botCluster -> isReady kc.2 = false.
Proof.
  split.
  - intros Hnil kc Hin. destruct (isReady kc.2) eqn:E; [|done].
    assert (kc ∈ List.filter (λ kc, isReady kc.2) botCluster) as Hf
      by by apply filter_elem_of.
    rewrite Hnil in Hf. by apply elem_of_nil in Hf.
  - intros Hall.
    destruct (List.filter (λ kc, isReady kc.2) botCluster) as [|kc l] eqn:E;
      [done|].
    assert (kc ∈ List.filter (λ kc, isReady kc.2) botCluster) as Hf
      by (rewrite E; apply list_elem_of_here).
    apply filter_elem_of in Hf as [Hin Hr]. rewrite (Hall kc Hin) in Hr. done.
Qed.

(** The head of an ascending list is at most every element. *)
Lemma head_ascending_least {A} (cmp : A -> A -> Z) l x :
  (forall a b, cmp a b <= 0 \/ cmp b a <= 0) ->
  ascending cmp l -> head l = Some x ->
  x ∈ l /\ forall y, y ∈ l -> cmp x y <= 0.
Proof.
  intros Htotal Hasc Hhead. destruct l as [|z l]; [done|].
  injection Hhead as ->. destruct Hasc as [Hz _].
  split; [apply list_elem_of_here|].
  intros y Hy. apply elem_of_cons in Hy as [->|Hy]; [|by apply Hz].
  by destruct (Htotal x x).
Qed.

Lemma loadCompare_total a b : loadCompare a b <= 0 \/ loadCompare b a <= 0.
Proof. unfold loadCompare. lia. Qed.

Lemma loadCompare_trans a b c :
  loadCompare a b <= 0 -> loadCompare b c <= 0 -> loadCompare a c <= 0.
Proof. unfold loadCompare. lia. Qed.

Lemma priorityCompare_total a b :
  priorityCompare a b <= 0 \/ priorityCompare b a <= 0.
Proof.
  unfold priorityCompare.
  destruct (isMainBot a.2), (isMainBot b.2); simpl; lia.
Qed.

Lemma priorityCompare_trans a b c :
  priorityCompare a b <= 0 -> priorityCompare b c <= 0 ->
  priorityCompare a c <= 0.
Proof.
  unfold priorityCompare.
  destruct (isMainBot a.2), (isMainBot b.2), (isMainBot c.2); simpl; lia.
Qed.

(** A main bot is never ranked after a bot that is not main. *)
Lemma priorityCompare_main a b :
  priorityCompare a b <= 0 -> isMainBot b.2 = true -> isMainBot a.2 = true.
Proof.
  unfold priorityCompare.
  destruct (isMainBot a.2), (isMainBot b.2); simpl; intros; try done; lia.
Qed.

Lemma selectByRoundRobin_spec (botCluster : list (string * BotClient)) :
  (_selectByRoundRobin botCluster = None <->
     forall kc, kc ∈ botCluster -> isReady kc.2 = false) /\
  (forall kc, _selectByRoundRobin botCluster = Some kc ->
     kc ∈ botCluster /\ isReady kc.2 = true /\
     forall kc', kc' ∈ botCluster -> isReady kc'.2 = true ->
       orZero (playerCount kc.2) <= orZero (playerCount kc'.2)).
Proof.
  unfold _selectByRoundRobin. fold loadCompare.
  set (ready := List.filter (λ kc, isReady kc.2) botCluster).
  split.
  - rewrite <- filter_ready_nil. fold ready.
    rewrite <- (jsSort_nil loadCompare ready).
    destruct (jsSort loadCompare ready); simpl; split; done.
  - intros kc Hhead.
    destruct (head_ascending_least loadCompare _ kc loadCompare_total
                (jsSort_ascending loadCompare loadCompare_total
                   loadCompare_trans ready) Hhead) as [Hin Hleast].
    apply jsSort_elem_of, filter_elem_of in Hin as [Hin Hr].
    split; [done|]. split; [done|]. intros kc' Hin' Hr'.
    assert (loadCompare kc kc' <= 0) as Hle.
    { apply Hleast. apply jsSort_elem_of, filter_elem_of. done. }
    unfold loadCompare in Hle. lia.
Qed.

Lemma selectByPriority_spec options (botCluster : list (string * BotClient)) :
  (_selectByPriority options botCluster = None <->
     forall kc, kc ∈ botCluster -> isReady kc.2 = false) /\
  (forall kc, _selectByPriority options botCluster = Some kc ->
     kc ∈ botCluster /\ isReady kc.2 = true /\
     ((exists kc', kc' ∈ botCluster /\ isReady kc'.2 = true /\
                   livePlayerCount kc'.2 < maxPlayersPerBot options) ->
      livePlayerCount kc.2 < maxPlayersPerBot options) /\
     ((exists kc', kc' ∈ botCluster /\ isReady kc'.2 = true /\
                   isMainBot kc'.2 = true /\
                   livePlayerCount kc'.2 < maxPlayersPerBot options) ->
      isMainBot kc.2 = true)).
Proof.
  unfold _selectByPriority.
  set (ready := List.filter (λ kc, isReady kc.2) botCluster).
  set (sorted := jsSort priorityCompare ready).
  set (free := λ kc : string * BotClient,
         livePlayerCount kc.2 <? maxPlayersPerBot options).
  assert (forall kc, kc ∈ sorted <-> kc ∈ botCluster /\ isReady kc.2 = true)
    as Hmem.
  { intros kc. unfold sorted, ready. by rewrite jsSort_elem_of, filter_elem_of. }
  pose proof (jsSort_ascending priorityCompare priorityCompare_total
                priorityCompare_trans ready) as Hasc. fold sorted in Hasc.
  split.
  - rewrite <- filter_ready_nil. fold ready.
    rewrite <- (jsSort_nil priorityCompare ready). fold sorted.
    destruct (List.find free sorted) as [kc|] eqn:Hfind.
    + split; [done|]. intros Hnil. rewrite Hnil in Hfind. done.
    + destruct sorted; simpl; split; done.
  - intros kc Hres.
    destruct (List.find free sorted) as [kc0|] eqn:Hfind.
    + injection Hres as <-.
      destruct (find_ascending_least priorityCompare priorityCompare_total
                  free sorted kc0 Hasc Hfind) as (Hin & Hfree & Hleast).
      apply Hmem in Hin as [Hin Hr]. unfold free in Hfree.
      apply Z.ltb_lt in Hfree.
      split; [done|]. split; [done|]. split; [done|].
      intros (kc' & Hin' & Hr' & Hmain' & Hfree').
      apply (priorityCompare_main kc0 kc'); [|done].
      apply Hleast; [by apply Hmem|]. unfold free. by apply Z.ltb_lt.
    + assert (kc ∈ sorted) as Hin
        by (destruct sorted; [done|]; injection Hres as ->; apply list_elem_of_here).
      apply Hmem in Hin as [Hin Hr].
      rewrite find_none_elem_of in Hfind.
      split; [done|]. split; [done|]. split.
      * intros (kc' & Hin' & Hr' & Hfree').
        assert (free kc' = false) as Hno by (apply Hfind; by apply Hmem).
        unfold free in Hno. apply Z.ltb_ge in Hno. lia.
      * intros (kc' & Hin' & Hr' & _ & Hfree').
        assert (free kc' = false) as Hno by (apply Hfind; by apply Hmem).
        unfold free in Hno. apply Z.ltb_ge in Hno. lia.
Qed.

Lemma selectBot_ready options (botCluster : list (string * BotClient)) :
  (_selectBot options botCluster = None <->
     forall kc, kc ∈ botCluster -> isReady kc.2 = false) /\
  (forall kc, _selectBot options botCluster = Some kc ->
     kc ∈ botCluster /\ isReady kc.2 = true).
Proof.
  unfold _selectBot.
  destruct (selectByPriority_spec options botCluster) as [Hp1 Hp2].
  destruct (selectByRoundRobin_spec botCluster) as [Hr1 Hr2].
  case_bool_decide; [|case_bool_decide].
  - split; [done|]. intros kc H'. by destruct (Hp2 kc H') as (? & ? & _).
  - split; [done|]. intros kc H'. by destruct (Hr2 kc H') as (? & ? & _).
  - split; [done|]. intros kc H'. by destruct (Hp2 kc H') as (? & ? & _).
Qed.

End SelectionFacts.

Module LoadBalancerExtras.
Import Cluster LoadBalancer LoadBalancerFacts SelectionFacts StoreFacts.

(** The round-robin selector returns [null] exactly when no bot of the
    cluster is ready; otherwise it returns a ready bot of the cluster whose
    cached player count is the least among the ready bots. *)
Theorem roundRobin_returns_least_loaded (botCluster : list (string * BotClient)) :
  (_selectByRoundRobin botCluster = None <->
     forall kc, kc ∈ botCluster -> isReady kc.2 = false) /\
  (forall kc, _selectByRoundRobin botCluster = Some kc ->
     kc ∈ botCluster /\ isReady kc.2 = true /\
     forall kc', kc' ∈ botCluster -> isReady kc'.2 = true ->
       orZero (playerCount kc.2) <= orZero (playerCount kc'.2)).
Proof. apply selectByRoundRobin_spec. Qed.

(** The priority selector returns [null] exactly when no bot is ready;
    otherwise it returns a ready bot of the cluster, which is under
    capacity whenever some ready bot is, and which is a main bot whenever
    a ready main bot is under capacity, whatever the loads. *)
Theorem priority_prefers_main_under_capacity (options : Options)
    (botCluster : list (string * BotClient)) :
  (_selectByPriority options botCluster = None <->
     forall kc, kc ∈ botCluster -> isReady kc.2 = false) /\
  (forall kc, _selectByPriority options botCluster = Some kc ->
     kc ∈ botCluster /\ isReady kc.2 = true /\
     ((exists kc', kc' ∈ botCluster /\ isReady kc'.2 = true /\
                   livePlayerCount kc'.2 < maxPlayersPerBot options) ->
      livePlayerCount kc.2 < maxPlayersPerBot options) /\
     ((exists kc', kc' ∈ botCluster /\ isReady kc'.2 = true /\
                   isMainBot kc'.2 = true /\
                   livePlayerCount kc'.2 < maxPlayersPerBot options) ->
      isMainBot kc.2 = true)).
Proof. apply selectByPriority_spec. Qed.

(** [assignBot] only ever returns a ready bot of the cluster.  It returns
    [null] exactly when the sticky branch does not apply and no bot is
    ready, and then the store is unchanged; when it returns a bot, that
    bot is stored in the cluster under the returned id and is ready, and
    the returned assignment is the guild's row in the store afterwards. *)
Theorem assignBot_returns_ready_member (options : Options)
    (botCluster : list (string * BotClient))
    (store : gmap string GuildAssignment.Assignment) (now : Z) (g : string) :
  let result := assignBot options botCluster store now g in
  (result.1.1 = None <->
     stickyOwner botCluster (store !! g) = None /\
     forall kc, kc ∈ botCluster -> isReady kc.2 = false) /\
  (result.1.1 = None -> result.1.2 = store) /\
  (forall r, result.1.1 = Some r ->
     (assignedBot r, assignedClient r) ∈ botCluster /\
     isReady (assignedClient r) = true /\
     result.1.2 !! g = Some (assignment r)).
Proof.
  cbv zeta. unfold assignBot, GuildAssignment.findById.
  destruct (selectBot_ready options botCluster) as [Hnone Hsome].
  destruct (stickyOwner botCluster (store !! g)) as [[a c]|] eqn:Hs.
  - apply stickyOwner_Some in Hs as (Ha & Hact & Hget & Hready). simpl.
    split; [split; [done|by intros [? _]]|]. split; [done|].
    intros r [= <-]. simpl. split; [by apply get_elem_of|]. split; [done|].
    unfold GuildAssignment.save. by rewrite lookup_insert_eq.
  - destruct (_selectBot options botCluster) as [[sid sc]|] eqn:Hsel.
    + pose proof (getOrCreate_lookup store g sid (clientId sc)
                    (match store !! g with
                     | Some _ => GuildAssignment.ReasonFailover
                     | None => GuildAssignment.ReasonAuto
                     end) now) as Hrow.
      destruct (GuildAssignment.getOrCreateAssignment store g sid _ _ now)
        as [a1 s1]. simpl in *.
      destruct (Hsome (sid, sc) eq_refl) as [Hin Hready].
      split.
      * split; [done|]. intros [_ Hall]. by rewrite (Hall _ Hin) in Hready.
      * split; [done|]. by intros r [= <-].
    + simpl. split; [|split; [done|done]].
      split; [|done]. intros _. split; [done|]. by apply Hnone.
Qed.

(** [forceAssign] fails, leaving the store unchanged, exactly when the
    target bot is not in the cluster or not ready.  When it succeeds, the
    guild's row names the target with reason manual; an existing row keeps
    its activity state, voice channel and last activity and records the
    former owner as previous owner; no other guild's row is touched; and
    if the row was active, [assignBot] then returns the target through the
    sticky branch. *)
Theorem forceAssign_reassigns_without_ending_session
    (botCluster : list (string * BotClient))
    (store : gmap string GuildAssignment.Assignment) (now : Z)
    (g target : string) :
  let forced := forceAssign botCluster store now g target in
  (success forced.1 = true <->
     exists c, get botCluster target = Some c /\ isReady c = true) /\
  (success forced.1 = false -> forced.2 = store) /\
  (forall g', g' <> g -> forced.2 !! g' = store !! g') /\
  (success forced.1 = true ->
   exists a', forced.2 !! g = Some a' /\
     GuildAssignment.assignedBotId a' = target /\
     GuildAssignment.assignmentReason a' = GuildAssignment.ReasonManual /\
     (forall a, store !! g = Some a ->
        GuildAssignment.previousBotId a' = Some (GuildAssignment.assignedBotId a) /\
        GuildAssignment.isActive a' = GuildAssignment.isActive a /\
        GuildAssignment.voiceChannelId a' = GuildAssignment.voiceChannelId a /\
        GuildAssignment.lastActivity a' = GuildAssignment.lastActivity a /\
        (GuildAssignment.isActive a = true ->
         forall options later,
           exists r, (assignBot options botCluster forced.2 later g).1.1 = Some r /\
                     assignedBot r = target /\
                     (assignBot options botCluster forced.2 later g).2
                     = [CallTouch g]))).
Proof.
  cbv zeta. unfold forceAssign.
  destruct (get botCluster target) as [c|] eqn:Hget; simpl.
  2:{ split; [split; [done|by intros (c & ? & _)]|]. by repeat split. }
  destruct (isReady c) eqn:Hready; simpl.
  2:{ split; [split; [done|]|by repeat split].
      intros (c' & [= <-] & Hr). congruence. }
  split; [split; [by exists c|done]|]. split; [done|].
  unfold GuildAssignment.reassignGuild, GuildAssignment.findById.
  destruct (store !! g) as [a|] eqn:Hg; simpl.
  - split; [intros g' Hne; by rewrite lookup_insert_ne|].
    intros _. eexists. split; [by rewrite lookup_insert_eq|]. simpl.
    split; [done|]. split; [done|]. intros a0 [= <-].
    split; [done|]. split; [done|]. split; [done|]. split; [done|].
    intros Hact options later.
    set (a' := {| GuildAssignment.assignedBotId := target;
                  GuildAssignment.assignedClientId := clientId c;
                  GuildAssignment.voiceChannelId := GuildAssignment.voiceChannelId a;
                  GuildAssignment.textChannelId := GuildAssignment.textChannelId a;
                  GuildAssignment.isActive := GuildAssignment.isActive a;
                  GuildAssignment.assignedAt := now;
                  GuildAssignment.lastActivity := GuildAssignment.lastActivity a;
                  GuildAssignment.assignmentReason := GuildAssignment.ReasonManual;
                  GuildAssignment.previousBotId :=
                    Some (GuildAssignment.assignedBotId a) |}).
    assert (stickyOwner botCluster (<[g:=a']> store !! g) = Some (a', c)) as Hs.
    { apply stickyOwner_Some. rewrite lookup_insert_eq. by repeat split. }
    unfold assignBot, GuildAssignment.findById. rewrite Hs. simpl.
    by eexists.
  - split; [intros g' Hne; by rewrite lookup_insert_ne|].
    intros _. eexists. split; [by rewrite lookup_insert_eq|]. simpl.
    by repeat split.
Qed.

(** [releaseBot] ends the stickiness of a guild.  On a guild without row
    it does nothing; otherwise the row becomes inactive, loses its voice
    channel and keeps its ownership record.  Afterwards [assignBot] goes
    through the selector, and the router's assignment rules see no active
    assignment for any bot. *)
Theorem releaseBot_ends_stickiness
    (store : gmap string GuildAssignment.Assignment) (now : Z) (g : string) :
  let store' := releaseBot store now g in
  (store !! g = None -> store' = store) /\
  (forall a, store !! g = Some a ->
     exists a', store' !! g = Some a' /\
       GuildAssignment.isActive a' = false /\
       GuildAssignment.voiceChannelId a' = None /\
       GuildAssignment.textChannelId a' = GuildAssignment.textChannelId a /\
       Sessions.sameOwner a a') /\
  (forall options botCluster later,
     CallSelectBot ∈ (assignBot options botCluster store' later g).2) /\
  (forall bot,
     Router.activeOnBot (GuildAssignment.findById store' g) bot = false /\
     Router.activeOnOtherBot (GuildAssignment.findById store' g) bot = false).
Proof.
  cbv zeta. unfold releaseBot, GuildAssignment.findById, GuildAssignment.save.
  destruct (store !! g) as [a|] eqn:Hg.
  - split; [done|]. split.
    { intros a0 [= <-]. eexists. split; [by rewrite lookup_insert_eq|].
      by repeat split. }
    split.
    + intros options botCluster later. rewrite assignBot_calls.
      rewrite lookup_insert_eq. simpl.
      destruct (_selectBot options botCluster) as [[sid sc]|];
        apply list_elem_of_here.
    + intros bot. by rewrite lookup_insert_eq.
  - split; [done|]. split; [done|]. split.
    + intros options botCluster later. rewrite assignBot_calls, Hg. simpl.
      destruct (_selectBot options botCluster) as [[sid sc]|];
        apply list_elem_of_here.
    + intros bot. by rewrite Hg.
Qed.

(** A heartbeat refreshes the cached counts and nothing else: the cluster
    keeps its ids, in order, and stays well formed; every bot's cached
    count is its live player count; a second heartbeat changes nothing;
    and on the refreshed cluster the round-robin selector returns a ready
    bot with the least live player count. *)
Theorem heartbeat_refreshes_cached_counts (options : Options)
    (botCluster : list (string * BotClient)) :
  let refreshed := (_heartbeat options botCluster).1 in
  refreshed.*1 = botCluster.*1 /\
  (wellFormed botCluster -> wellFormed refreshed) /\
  (forall kc, kc ∈ refreshed ->
     playerCount kc.2 = Some (livePlayerCount kc.2)) /\
  _heartbeat options refreshed = (refreshed, (_heartbeat options botCluster).2) /\
  (forall kc, _selectByRoundRobin refreshed = Some kc ->
     forall kc', kc' ∈ refreshed -> isReady kc'.2 = true ->
       livePlayerCount kc.2 <= livePlayerCount kc'.2).
Proof.
  cbv zeta. unfold _heartbeat. simpl.
  set (f := λ kc : string * BotClient, (kc.1, (_updateBotStatus options kc.2).1)).
  assert (forall kc, kc ∈ map f botCluster ->
            playerCount kc.2 = Some (livePlayerCount kc.2)) as Hcached.
  { intros kc Hin. apply list_elem_of_In, in_map_iff in Hin as (kc0 & <- & _).
    done. }
  assert ((map f botCluster).*1 = botCluster.*1) as Hids.
  { clear. induction botCluster as [|kc l IH]; [done|].
    simpl. f_equal. exact IH. }
  split; [done|split; [|split; [done|split]]].
  - intros [Hnd Hkeys]. split.
    + rewrite <- Hids in Hnd. exact Hnd.
    + clear Hnd Hcached Hids. induction Hkeys as [|kc l Hk Hl IH]; [constructor|].
      simpl. constructor; [done|apply IH].
  - f_equal.
    + rewrite map_map. apply map_ext. by intros [k c].
    + rewrite map_map. apply map_ext. by intros [k c].
  - intros kc Hsel kc' Hin' Hr'.
    destruct (selectByRoundRobin_spec (map f botCluster)) as [_ Hleast].
    destruct (Hleast kc Hsel) as (Hin & _ & Hle).
    specialize (Hle kc' Hin' Hr').
    by rewrite (Hcached kc Hin), (Hcached kc' Hin') in Hle.
Qed.

End LoadBalancerExtras.

(** ** The persisted bot status *)

Module BotStatusExtras.
Import LoadBalancer BotStatus.

(** [markStaleBotsOffline] forces stale bots offline and does nothing
    else.  It keeps the set of documents and changes at most the status;
    afterwards every document whose heartbeat is older than the threshold
    is [Offline] or [Error]; a document in [Error], or with a heartbeat
    within the threshold, is left as it is; and a second run at the same
    or a later instant leaves what a single run at that instant leaves. *)
Theorem markStale_forces_stale_offline (statuses : gmap string Doc) (now : Z)
    (threshold : option Z) :
  let staleTime := now - default 60000 threshold in
  let marked := markStaleBotsOffline statuses now threshold in
  dom marked = dom statuses /\
  (forall id d, statuses !! id = Some d ->
     exists d', marked !! id = Some d' /\
       d' = withLoad d (status d') (playerCount d) /\
       (lastHeartbeat d < staleTime -> status d' = Offline \/ status d' = Error) /\
       (status d = Error \/ staleTime <= lastHeartbeat d -> d' = d)) /\
  (forall now', now <= now' ->
     markStaleBotsOffline marked now' threshold
     = markStaleBotsOffline statuses now' threshold).
Proof.
  cbv zeta. unfold markStaleBotsOffline. split; [apply dom_fmap_L|]. split.
  - intros id d Hd. rewrite lookup_fmap, Hd. simpl. eexists. split; [done|].
    unfold matchesStale.
    destruct (lastHeartbeat d <? now - default 60000 threshold) eqn:Hstale;
      simpl.
    + apply Z.ltb_lt in Hstale. case_bool_decide as Hst; simpl.
      * split; [by destruct d|]. split; [done|].
        intros [He|Hfresh]; [done|lia].
      * split; [done|]. split; [by left|].
        intros [He|Hfresh]; [|lia]. exfalso. apply Hst. by right.
    + apply Z.ltb_ge in Hstale. split; [by destruct d|].
      split; [lia|done].
  - intros now' Hle. apply map_eq. intros id. rewrite !lookup_fmap.
    destruct (statuses !! id) as [d|]; [|done]. simpl. f_equal.
    unfold matchesStale.
    destruct d as [n c st m pc gc mu cu up pg hb sa lc cn em]. simpl.
    destruct (hb <? now - default 60000 threshold) eqn:Hstale;
      destruct (hb <? now' - default 60000 threshold) eqn:Hstale';
      destruct st; simpl; rewrite ?Hstale'; simpl; try done.
    all: apply Z.ltb_lt in Hstale; apply Z.ltb_ge in Hstale'; lia.
Qed.

(** The player counter of a status document.  [decrementPlayerCount]
    never leaves a negative count.  On a document whose count and status
    agree (no negative count, [Available] only with no player, [InUse]
    only with some), both [incrementPlayerCount] and
    [decrementPlayerCount] keep that agreement, an increment of an
    [Available] bot makes it [InUse], and a decrement undoes an
    increment. *)
Theorem playerCount_updates_keep_status_consistent (d : Doc) :
  0 <= playerCount (decrementPlayerCount d) /\
  (consistent d ->
     consistent (incrementPlayerCount d) /\
     consistent (decrementPlayerCount d) /\
     (status d = Available -> status (incrementPlayerCount d) = InUse) /\
     decrementPlayerCount (incrementPlayerCount d) = d).
Proof.
  split.
  { unfold decrementPlayerCount.
    destruct (bool_decide (status d = InUse) &&
              (Z.max 0 (playerCount d - 1) =? 0)); simpl; lia. }
  intros (Hnn & Hav & Hin). unfold consistent.
  unfold incrementPlayerCount, decrementPlayerCount.
  assert ((playerCount d + 1 >? 0) = true) as Hpos
    by (rewrite Z.gtb_ltb; apply Z.ltb_lt; lia).
  rewrite Hpos, andb_true_r.
  destruct d as [n c st m pc gc mu cu up pg hb sa lc cn em]. simpl in *.
  destruct st; simpl.
  - specialize (Hav eq_refl). subst pc. simpl. split; [|split; [|split]].
    + by repeat split.
    + by repeat split.
    + done.
    + done.
  - specialize (Hin eq_refl).
    assert (Z.max 0 (pc - 1) = pc - 1) as Hm by lia.
    assert (Z.max 0 (pc + 1 - 1) = pc) as Hm' by lia.
    rewrite Hm, Hm'. split; [|split; [|split]].
    + repeat split; simpl; [lia|done|lia].
    + destruct (pc - 1 =? 0) eqn:E; simpl.
      * apply Z.eqb_eq in E. repeat split; simpl; [lia|done|done].
      * apply Z.eqb_neq in E. repeat split; simpl; [lia|done|lia].
    + done.
    + destruct (pc =? 0) eqn:E; [apply Z.eqb_eq in E; lia|done].
  - assert (Z.max 0 (pc + 1 - 1) = pc) as Hm' by lia. rewrite Hm'.
    split; [|split; [|split]]; [repeat split; simpl; try done; lia..|done|done].
  - assert (Z.max 0 (pc + 1 - 1) = pc) as Hm' by lia. rewrite Hm'.
    split; [|split; [|split]]; [repeat split; simpl; try done; lia..|done|done].
  - assert (Z.max 0 (pc + 1 - 1) = pc) as Hm' by lia. rewrite Hm'.
    split; [|split; [|split]]; [repeat split; simpl; try done; lia..|done|done].
Qed.

End BotStatusExtras.

(** ** The router *)

Module RouterLockFacts.
Import Cluster Router RouterFacts.

Lemma acquire_lookup_ne (locks : gmap string LockTable.Lock) g p now g' :
  g' <> g -> (LockTable.acquireCommandLock locks g p now).2 !! g' = locks !! g'.
Proof.
  intros Hne. unfold LockTable.acquireCommandLock.
  destruct (locks !! g) as [e|]; simpl.
  - destruct (LockTable.expired now e); simpl.
    + by rewrite lookup_insert_ne, lookup_delete_ne.
    + by case_bool_decide.
  - by rewrite lookup_insert_ne.
Qed.

(** A successful acquisition leaves the caller as the entry's owner. *)
Lemma acquire_success_owns (locks : gmap string LockTable.Lock) g p now :
  (LockTable.acquireCommandLock locks g p now).1 = true ->
  exists e, (LockTable.acquireCommandLock locks g p now).2 !! g = Some e /\
            LockTable.botId e = p.
Proof.
  unfold LockTable.acquireCommandLock. destruct (locks !! g) as [e|] eqn:He.
  - destruct (LockTable.expired now e); simpl.
    + intros _. eexists. by rewrite lookup_insert_eq.
    + case_bool_decide as Hown; simpl; [|done]. intros _. by exists e.
  - simpl. intros _. eexists. by rewrite lookup_insert_eq.
Qed.

(** A failed acquisition leaves the table as it was. *)
Lemma acquire_failure_unchanged (locks : gmap string LockTable.Lock) g p now :
  (LockTable.acquireCommandLock locks g p now).1 = false ->
  (LockTable.acquireCommandLock locks g p now).2 = locks.
Proof.
  unfold LockTable.acquireCommandLock. destruct (locks !! g) as [e|]; [|done].
  destruct (LockTable.expired now e); [done|]. by case_bool_decide.
Qed.

Lemma release_lookup_ne (locks : gmap string LockTable.Lock) g p g' :
  g' <> g -> LockTable.releaseCommandLock locks g p !! g' = locks !! g'.
Proof.
  intros Hne. unfold LockTable.releaseCommandLock.
  destruct (locks !! g) as [e|]; [|done].
  case_bool_decide; [|done]. by rewrite lookup_delete_ne.
Qed.

Lemma hasCommandLock_effect (locks : gmap string LockTable.Lock) g p now :
  (forall g', g' <> g ->
     (LockTable.hasCommandLock locks g p now).2 !! g' = locks !! g') /\
  ((LockTable.hasCommandLock locks g p now).2 !! g = locks !! g \/
   (LockTable.hasCommandLock locks g p now).2 !! g = None).
Proof.
  unfold LockTable.hasCommandLock. destruct (locks !! g) as [e|] eqn:He.
  - destruct (LockTable.expired now e); simpl.
    + split; [intros g' Hne; by rewrite lookup_delete_ne|].
      right. apply lookup_delete_eq.
    + split; [done|by left].
  - split; [done|by left].
Qed.

(** What the lock check does to the table: other guilds are untouched, and
    the guild's entry is kept or removed, never created. *)
Lemma lockCheck_effect orchestrator clock client g locks :
  let checked := lockCheck orchestrator clock client g locks in
  (forall g', g' <> g -> checked.2 !! g' = locks !! g') /\
  (checked.2 !! g = locks !! g \/ checked.2 !! g = None).
Proof.
  cbv zeta. unfold lockCheck.
  destruct orchestrator as [bots|]; [|by split; [|left]].
  destruct (hasCommandLock_effect locks g (botId client) (atHasLock clock))
    as [Hhas_ne Hhas_g].
  destruct (LockTable.hasCommandLock locks g (botId client) (atHasLock clock))
    as [has l1]. simpl in *.
  destruct has; simpl; [by split|].
  pose proof (acquire_lookup_ne l1 g (botId client) (atProbe clock)) as Hacq_ne.
  pose proof (acquire_failure_unchanged l1 g (botId client) (atProbe clock))
    as Hfail.
  pose proof (probe_release_free l1 g (botId client) (atProbe clock)) as Hfree.
  destruct (LockTable.acquireCommandLock l1 g (botId client) (atProbe clock))
    as [got l2]. simpl in *.
  destruct got; simpl.
  - split; [|right; by apply Hfree].
    intros g' Hne. by rewrite release_lookup_ne, Hacq_ne, Hhas_ne.
  - rewrite (Hfail eq_refl). by split.
Qed.

Lemma acquireIfPresent_lookup_ne orchestrator clock client g locks g' :
  g' <> g ->
  acquireIfPresent orchestrator clock client g locks !! g' = locks !! g'.
Proof.
  intros Hne. unfold acquireIfPresent. destruct orchestrator; [|done].
  by apply acquire_lookup_ne.
Qed.

(** [takeOver] touches the guild's entry alone; when it answers [false]
    the table is unchanged, and when it answers [true] this bot owns the
    guild's entry. *)
Lemma takeOver_effect localeCompare bots clock client g userVC locks :
  let taken := takeOver localeCompare bots clock client g userVC locks in
  (forall g', g' <> g -> taken.2 !! g' = locks !! g') /\
  (taken.1 = false -> taken.2 = locks) /\
  (taken.1 = true ->
   exists e, taken.2 !! g = Some e /\ LockTable.botId e = botId client).
Proof.
  cbv zeta. unfold takeOver.
  destruct (List.find _ _) as [f|]; [|by repeat split].
  case_bool_decide; [|by repeat split].
  pose proof (acquire_lookup_ne locks g (botId client) (atAcquire clock)) as Hne.
  pose proof (acquire_success_owns locks g (botId client) (atAcquire clock))
    as Hown.
  pose proof (acquire_failure_unchanged locks g (botId client) (atAcquire clock))
    as Hfail.
  destruct (LockTable.acquireCommandLock locks g (botId client) (atAcquire clock))
    as [got l1]. simpl in *.
  destruct got; simpl; split; try done; split; try done; auto.
Qed.


End RouterLockFacts.

Module RouterExtras.
Import Cluster Router RouterFacts RouterLockFacts.

(** An evaluation changes no lock but its own guild's, and one that
    defers takes no lock: evaluated without interference, it leaves every
    other guild's entry as it was, and when it answers [false] the
    evaluated guild's entry is what it was or has been removed. *)
Theorem deferring_evaluation_takes_no_lock
    (localeCompare : string -> string -> Z)
    (orchestrator : option (list (string * BotClient)))
    (store : gmap string GuildAssignment.Assignment) (clock : Clock)
    (client : BotClient) (g : string) (isMusicCommand : bool)
    (userVC : option string) (locks : gmap string LockTable.Lock) :
  let decision :=
    shouldHandleCommand localeCompare orchestrator store (λ l, l) clock client
      g isMusicCommand userVC locks in
  (forall g', g' <> g -> decision.2 !! g' = locks !! g') /\
  (decision.1 = false ->
   decision.2 !! g = locks !! g \/ decision.2 !! g = None).
Proof.
  cbv zeta. unfold shouldHandleCommand.
  destruct (lockCheck_effect orchestrator clock client g locks)
    as [Hcheck_ne Hcheck_g].
  destruct (lockCheck orchestrator clock client g locks) as [goOn l1].
  simpl in Hcheck_ne, Hcheck_g.
  destruct (isMainBot client).
  { destruct (isMusicCommand && truthy userVC &&
              inOtherChannel (getPlayer client g) userVC); [by split; [|left]|].
    destruct isMusicCommand; [|by split; [|left]].
    destruct (activeOnOtherBot _ _); [by split; [|left]|]. simpl.
    split; [|done]. intros g' Hne. by apply acquireIfPresent_lookup_ne. }
  destruct isMusicCommand; simpl; [|by split; [|left]].
  destruct goOn; simpl; [|by split].
  destruct (truthy userVC && inOtherChannel (getPlayer client g) userVC);
    [by split|].
  destruct (truthy userVC && _).
  { simpl. split; [|done]. intros g' Hne.
    rewrite <- (Hcheck_ne g' Hne).
    by apply (acquireIfPresent_lookup_ne orchestrator clock client g l1 g'). }
  unfold failoverDecision.
  destruct (activeOnBot _ _).
  { simpl. split; [|done]. intros g' Hne.
    rewrite <- (Hcheck_ne g' Hne).
    by apply (acquireIfPresent_lookup_ne orchestrator clock client g l1 g'). }
  destruct orchestrator as [bots|]; [|by split].
  destruct (negb (truthy userVC)); [by split|].
  destruct (findMainBot bots) as [m|]; [|by split].
  destruct (lavalink m) as [lm|]; [|by split].
  destruct (players lm !! g) as [mp|]; [|by split].
  destruct (negb (truthy (voiceChannelId mp))); [by split|].
  case_bool_decide; [by split|].
  destruct (takeOver_effect localeCompare bots clock client g userVC l1)
    as (Hne & Hfalse & _).
  split.
  - intros g' Hg'. by rewrite (Hne g' Hg'), (Hcheck_ne g' Hg').
  - intros Hdec. by rewrite (Hfalse Hdec).
Qed.



(** When every bot of the cluster has a player for the guild in another
    voice channel than the requester's, nobody answers a music command:
    each bot of the cluster, main or not, defers. *)
Theorem everyone_busy_elsewhere_drops_command
    (localeCompare : string -> string -> Z)
    (orchestrator : option (list (string * BotClient)))
    (bots : list (string * BotClient))
    (store : gmap string GuildAssignment.Assignment)
    (interleaved : gmap string LockTable.Lock -> gmap string LockTable.Lock)
    (clock : Clock) (g : string) (userVC : option string)
    (locks : gmap string LockTable.Lock) (kc : string * BotClient) :
  truthy userVC = true ->
  (forall kc', kc' ∈ bots -> inOtherChannel (getPlayer kc'.2 g) userVC = true) ->
  kc ∈ bots ->
  (shouldHandleCommand localeCompare orchestrator store interleaved clock kc.2 g
     true userVC locks).1 = false.
Proof.
  intros Huser Hbusy Hin. specialize (Hbusy kc Hin).
  unfold shouldHandleCommand. rewrite Huser, Hbusy. simpl.
  destruct (isMainBot kc.2); [done|].
  destruct (lockCheck orchestrator clock kc.2 g locks) as [goOn l1].
  by destruct goOn.
Qed.

(** The three bots all play in guild1, each in a channel of its own, and
    the requester sits in a fourth channel: bot-3 defers. *)
Lemma everyone_busy_elsewhere_drops_command_witness :
  let bots :=
    [("bot-1", Scenario.bot1Busy);
     ("bot-2", Scenario.withPlayer Scenario.bot2 "guild1" (Some "vc2"));
     ("bot-3", Scenario.withPlayer Scenario.bot3 "guild1" (Some "vc3"))] in
  (shouldHandleCommand codeCompare (Some bots) ∅ (λ l, l) (Scenario.clockAt 0)
     (Scenario.withPlayer Scenario.bot3 "guild1" (Some "vc3")) "guild1" true
     (Some "vc4") ∅).1 = false.
Proof.
  intros bots.
  apply (everyone_busy_elsewhere_drops_command codeCompare (Some bots) bots ∅
           (λ l, l) (Scenario.clockAt 0) "guild1" (Some "vc4") ∅
           ("bot-3", Scenario.withPlayer Scenario.bot3 "guild1" (Some "vc3"))).
  - reflexivity.
  - intros kc' Hin. unfold bots in Hin. rewrite !elem_of_cons in Hin.
    destruct Hin as [->|[->|[->|Hin]]]; [by vm_compute..|].
    by apply elem_of_nil in Hin.
  - do 2 apply list_elem_of_further. apply list_elem_of_here.
Defined.

End RouterExtras.


(** ** Bot configuration *)

Module ConfigFacts.
Import Config.

(** Strings: the length of a concatenation and cancellation on the right. *)
Lemma string_app_length (s t : string) :
  String.length (s +:+ t) = (String.length s + String.length t)%nat.
Proof. induction s as [|a s IH]; simpl; [done|]. by rewrite IH. Qed.

Lemma string_app_inv_tail (s1 s2 t : string) : s1 +:+ t = s2 +:+ t -> s1 = s2.
Proof.
  revert s2. induction s1 as [|a s1 IH]; intros [|b s2] H; simpl in *.
  - done.
  - apply (f_equal String.length) in H.
    rewrite !string_app_length in H. simpl in H. lia.
  - apply (f_equal String.length) in H.
    rewrite !string_app_length in H. simpl in H. lia.
  - change (String a (s1 +:+ t) = String b (s2 +:+ t)) in H.
    injection H as -> H. f_equal. by apply IH.
Qed.

(** Distinct indices give distinct variable names and distinct bot ids. *)
Lemma botKey_inj suffix i j : botKey i suffix = botKey j suffix -> i = j.
Proof.
  unfold botKey. intros H. apply (inj (String.app "BOT")) in H.
  apply string_app_inv_tail in H. by apply (inj pretty) in H.
Qed.

Lemma botId_inj (i j : nat) : "bot-" +:+ pretty i = "bot-" +:+ pretty j -> i = j.
Proof. intros H. apply (inj (String.app "bot-")) in H. by apply (inj pretty) in H. Qed.

(** A loop that runs out of fuel has seen a token at each index it visited. *)
Lemma scanBots_unfinished fuel env i :
  scanBots fuel env i = None ->
  forall j, (i <= j < i + fuel)%nat -> truthy (env !! botKey j "_TOKEN") = true.
Proof.
  revert i. induction fuel as [|fuel IH]; intros i H j Hj; [lia|].
  simpl in H.
  destruct (truthy (env !! botKey i "_TOKEN")) eqn:Ht; [|done].
  destruct (scanBots fuel env (S i)) as [rest|] eqn:Hrest; [done|].
  destruct (decide (j = i)) as [->|Hne]; [done|].
  apply (IH (S i) Hrest). lia.
Qed.

(** A truthy variable is set; a truthy value is a non-empty string. *)
Lemma truthy_in_dom (env : gmap string string) k :
  truthy (env !! k) = true -> k ∈ dom env.
Proof.
  intros H. apply elem_of_dom. destruct (env !! k); [done|discriminate].
Qed.

(** The indices with a token are keys of the environment, so the loop ends
    within [size env] iterations; more fuel does not change its result. *)
Lemma scanBots_enough_fuel fuel env i :
  (size env < fuel)%nat -> is_Some (scanBots fuel env i).
Proof.
  intros Hfuel. destruct (scanBots fuel env i) as [bots|] eqn:H; [done|].
  exfalso.
  pose proof (scanBots_unfinished fuel env i H) as Hall.
  set (keys := (λ j, botKey j "_TOKEN") <$> seq i fuel).
  assert (NoDup keys) as Hnd.
  { apply NoDup_fmap_2; [|apply NoDup_seq].
    intros a b. apply botKey_inj. }
  assert (keys ⊆+ elements (dom env)) as Hsub.
  { apply NoDup_submseteq; [done|].
    intros k Hk. apply elem_of_elements.
    apply list_elem_of_fmap in Hk as (j & -> & Hj).
    apply elem_of_seq in Hj. apply truthy_in_dom, Hall. lia. }
  apply submseteq_length in Hsub.
  unfold keys in Hsub. rewrite length_fmap, length_seq in Hsub.
  change (length (elements (dom env))) with (size (dom env)) in Hsub.
  rewrite size_dom in Hsub. lia.
Qed.

Lemma scanBots_more_fuel fuel fuel' env i bots :
  scanBots fuel env i = Some bots -> (fuel <= fuel')%nat ->
  scanBots fuel' env i = Some bots.
Proof.
  revert fuel' i bots. induction fuel as [|fuel IH]; intros fuel' i bots H Hle;
    [done|].
  destruct fuel' as [|fuel']; [lia|]. simpl in *.
  destruct (truthy (env !! botKey i "_TOKEN")); [|done].
  destruct (scanBots fuel env (S i)) as [rest|] eqn:Hrest; [|done].
  rewrite (IH fuel' (S i) rest Hrest); [done|lia].
Qed.

Lemma truthy_Some (v : option string) :
  truthy v = true -> exists s, v = Some s /\ s <> EmptyString.
Proof.
  destruct v as [s|]; [|discriminate]. simpl. intros H.
  exists s. split; [done|]. intros ->. by rewrite bool_decide_eq_true_2 in H.
Qed.

(** What the loop collects from index [i] on. *)
Lemma scanBots_bots fuel env i bots :
  scanBots fuel env i = Some bots ->
  NoDup (id <$> bots) /\
  Forall (λ c, exists j : nat,
            (i <= j)%nat /\ id c = "bot-" +:+ pretty j /\
            isMain c = bool_decide (j = 1%nat) /\
            env !! botKey j "_TOKEN" = Some (token c) /\
            token c <> EmptyString /\
            env !! botKey j "_CLIENT_ID" = Some (clientId c) /\
            clientId c <> EmptyString /\
            forall k : nat, (i <= k <= j)%nat ->
              truthy (env !! botKey k "_TOKEN") = true) bots.
Proof.
  revert i bots. induction fuel as [|fuel IH]; intros i bots H; [done|].
  simpl in H.
  destruct (truthy (env !! botKey i "_TOKEN")) eqn:Ht.
  2:{ injection H as <-. split; [constructor|constructor]. }
  destruct (scanBots fuel env (S i)) as [rest|] eqn:Hrest; [|done].
  simpl in H. injection H as <-.
  destruct (IH (S i) rest Hrest) as [Hnd Hall].
  assert (Forall (λ c, exists j : nat,
            (i <= j)%nat /\ id c = "bot-" +:+ pretty j /\
            isMain c = bool_decide (j = 1%nat) /\
            env !! botKey j "_TOKEN" = Some (token c) /\
            token c <> EmptyString /\
            env !! botKey j "_CLIENT_ID" = Some (clientId c) /\
            clientId c <> EmptyString /\
            forall k : nat, (i <= k <= j)%nat ->
              truthy (env !! botKey k "_TOKEN") = true) rest) as Hall'.
  { eapply Forall_impl; [exact Hall|]. simpl.
    intros c (j & Hj & Hid & Hmain & Htok & Htok' & Hcl & Hcl' & Hgap).
    exists j. repeat split; try done; [lia|].
    intros k Hk. destruct (decide (k = i)) as [->|Hne]; [done|].
    apply Hgap. lia. }
  destruct (truthy (env !! botKey i "_CLIENT_ID")) eqn:Hc; [|done].
  apply truthy_Some in Ht as (t & Ht & Ht').
  apply truthy_Some in Hc as (cl & Hc & Hc').
  rewrite Ht, Hc. simpl. split.
  - apply NoDup_cons. split; [|done].
    intros Hin. apply list_elem_of_fmap in Hin as (c & Hid & Hin).
    rewrite Forall_forall in Hall.
    destruct (Hall c Hin) as (j & Hj & Hid' & _).
    rewrite Hid' in Hid. apply botId_inj in Hid. lia.
  - constructor; [|done]. exists i. simpl. repeat split; try done.
    intros k Hk. assert (k = i) as -> by lia.
    by rewrite Ht; simpl; rewrite bool_decide_eq_false_2.
Qed.

(** Every index reached by the loop with a client id yields a bot. *)
Lemma scanBots_complete fuel env i bots (j : nat) :
  scanBots fuel env i = Some bots -> (i <= j)%nat ->
  (forall k : nat, (i <= k <= j)%nat ->
     truthy (env !! botKey k "_TOKEN") = true) ->
  truthy (env !! botKey j "_CLIENT_ID") = true ->
  exists c, c ∈ bots /\ id c = "bot-" +:+ pretty j.
Proof.
  revert i bots. induction fuel as [|fuel IH]; intros i bots H Hj Htok Hcl;
    [done|].
  simpl in H. rewrite (Htok i) in H by lia.
  destruct (scanBots fuel env (S i)) as [rest|] eqn:Hrest; [|done].
  simpl in H. injection H as <-.
  destruct (decide (j = i)) as [->|Hne].
  - rewrite Hcl. eexists. split; [apply list_elem_of_here|]. reflexivity.
  - destruct (IH (S i) rest Hrest) as (c & Hc & Hid); [lia| |done|].
    { intros k Hk. apply Htok. lia. }
    exists c. split; [|done]. apply elem_of_app. by right.
Qed.

End ConfigFacts.

Module ConfigExtras.
Import Config ConfigFacts.

(** [parseBotConfigs] returns: the loop over [BOT1_TOKEN], [BOT2_TOKEN], ...
    ends for every environment, after at most as many iterations as the
    environment has variables, and the result is the same for any larger
    bound on the iterations. *)
Theorem parseBotConfigs_terminates (env : gmap string string) :
  exists bots, forall fuel,
    (size env < fuel)%nat -> parseBotConfigs fuel env = Some bots.
Proof.
  destruct (scanBots_enough_fuel (S (size env)) env 1) as [found Hfound]; [lia|].
  exists (default [] (parseBotConfigs (S (size env)) env)).
  intros fuel Hfuel. unfold parseBotConfigs.
  rewrite Hfound.
  rewrite (scanBots_more_fuel (S (size env)) fuel env 1 found Hfound) by lia.
  simpl. destruct (bool_decide (found = []) && truthy (env !! "TOKEN")); reflexivity.
Qed.

(** The configured bots have pairwise distinct ids and non-empty tokens,
    and the main bot is exactly the one with id [bot-1] (so at most one bot
    is main). *)
Theorem configured_bots_well_formed (fuel : nat) (env : gmap string string)
    (bots : list BotConfig) :
  parseBotConfigs fuel env = Some bots ->
  NoDup (id <$> bots) /\
  forall c, c ∈ bots ->
    token c <> EmptyString /\ (isMain c = true <-> id c = "bot-1").
Proof.
  unfold parseBotConfigs. intros H.
  destruct (scanBots fuel env 1) as [found|] eqn:Hfound; [|done]. simpl in H.
  destruct (bool_decide (found = []) && truthy (env !! "TOKEN")) eqn:Hfb.
  - injection H as <-. apply andb_prop in Hfb as [_ Htok].
    apply truthy_Some in Htok as (t & Ht & Ht').
    split; [apply NoDup_singleton|].
    intros c Hc. apply list_elem_of_singleton in Hc as ->. simpl.
    by rewrite Ht.
  - injection H as <-.
    destruct (scanBots_bots fuel env 1 found Hfound) as [Hnd Hall].
    split; [done|]. intros c Hc. rewrite Forall_forall in Hall.
    destruct (Hall c Hc) as (j & Hj & Hid & Hmain & _ & Htok & _).
    split; [done|]. rewrite Hmain, Hid. split.
    + intros Hj1. apply bool_decide_eq_true in Hj1 as ->. reflexivity.
    + intros Hj1. apply bool_decide_eq_true.
      by apply (botId_inj j 1).
Qed.

(** [sampleEnv] configures the single bot [sampleBot]. *)
Lemma configured_bots_well_formed_witness :
  parseBotConfigs 7 sampleEnv = Some [sampleBot] /\
  NoDup (id <$> [sampleBot]) /\
  forall c, c ∈ [sampleBot] ->
    token c <> EmptyString /\ (isMain c = true <-> id c = "bot-1").
Proof.
  split; [by vm_compute|].
  apply (configured_bots_well_formed 7 sampleEnv). by vm_compute.
Defined.

(** Where the configured bots come from.  Each one is either [bot-j] for an
    index [j] whose token and non-empty client id the environment holds,
    with a token set at every index from 1 to [j], or it is the only bot,
    [bot-1] built from the legacy [TOKEN].  Conversely every index with a
    client id and with tokens set at all indices up to it yields a bot: the
    scan stops at the first missing token, and a bot without client id is
    skipped without stopping the scan. *)
Theorem configured_bot_provenance (fuel : nat) (env : gmap string string)
    (bots : list BotConfig) :
  parseBotConfigs fuel env = Some bots ->
  (forall c, c ∈ bots ->
     (exists j : nat,
        (1 <= j)%nat /\ id c = "bot-" +:+ pretty j /\
        env !! botKey j "_TOKEN" = Some (token c) /\
        env !! botKey j "_CLIENT_ID" = Some (clientId c) /\
        clientId c <> EmptyString /\
        forall k : nat, (1 <= k <= j)%nat ->
          truthy (env !! botKey k "_TOKEN") = true) \/
     (bots = [c] /\ id c = "bot-1" /\ isMain c = true /\
      env !! "TOKEN" = Some (token c))) /\
  (forall j : nat, (1 <= j)%nat ->
     (forall k : nat, (1 <= k <= j)%nat ->
        truthy (env !! botKey k "_TOKEN") = true) ->
     truthy (env !! botKey j "_CLIENT_ID") = true ->
     exists c, c ∈ bots /\ id c = "bot-" +:+ pretty j).
Proof.
  unfold parseBotConfigs. intros H.
  destruct (scanBots fuel env 1) as [found|] eqn:Hfound; [|done]. simpl in H.
  destruct (bool_decide (found = []) && truthy (env !! "TOKEN")) eqn:Hfb.
  - injection H as <-. apply andb_prop in Hfb as [Hnil Htok].
    apply bool_decide_eq_true in Hnil. subst found.
    apply truthy_Some in Htok as (t & Ht & Ht'). split.
    + intros c Hc. apply list_elem_of_singleton in Hc as ->. right. simpl.
      by rewrite Ht.
    + intros j Hj Htoks Hcl.
      destruct (scanBots_complete fuel env 1 [] j Hfound Hj Htoks Hcl)
        as (c & Hc & _).
      by apply elem_of_nil in Hc.
  - injection H as <-. split.
    + intros c Hc.
      destruct (scanBots_bots fuel env 1 found Hfound) as [_ Hall].
      rewrite Forall_forall in Hall.
      destruct (Hall c Hc) as (j & Hj & Hid & _ & Htok & _ & Hcl & Hcl' & Hgap).
      left. by exists j.
    + intros j Hj Htoks Hcl.
      exact (scanBots_complete fuel env 1 found j Hfound Hj Htoks Hcl).
Qed.

(** In [sampleEnv] only index 1 qualifies: bot 2 has no client id and bot 4
    lies behind the missing [BOT3_TOKEN]. *)
Lemma configured_bot_provenance_witness :
  parseBotConfigs 7 sampleEnv = Some [sampleBot] /\
  (forall j : nat, (1 <= j)%nat ->
     (forall k : nat, (1 <= k <= j)%nat ->
        truthy (sampleEnv !! botKey k "_TOKEN") = true) ->
     truthy (sampleEnv !! botKey j "_CLIENT_ID") = true ->
     exists c, c ∈ [sampleBot] /\ id c = "bot-" +:+ pretty j).
Proof.
  split; [by vm_compute|].
  apply (configured_bot_provenance 7 sampleEnv [sampleBot]). by vm_compute.
Defined.

End ConfigExtras.

(** ** Persisted player state *)

Module PlayerStoreFacts.
Import PlayerStore.

Section Facts.
Context {Track Filters : Type}.
Implicit Types (players : gmap string (Doc Track Filters)) (d : Doc Track Filters).






End Facts.

Section Facts2.
Context {Track Filters : Type}.
Implicit Types (players : gmap string (Doc Track Filters)) (d : Doc Track Filters).



End Facts2.

End PlayerStoreFacts.

Module PlayerStoreExtras.
Import PlayerStore PlayerStoreFacts.

Section Extras.
Context {Track Filters : Type}.
Variable noFilters : Filters.
Implicit Types (players : gmap string (Doc Track Filters)) (d : Doc Track Filters).

(** Save and load.  [saveState] touches no other guild's document; what it
    saved with [destroyed: false] is what [loadState] returns, whether the
    guild had no document, a live one or one marked destroyed, and the
    play history of an existing document survives the save; saved with
    [destroyed: true] the state is not loaded. *)
Theorem saved_state_is_loaded_back players (now : Z) (guildId : string)
    (data : PlayerData Track) :
  let players' := saveState noFilters players now guildId data in
  (forall g, g <> guildId -> players' !! g = players !! g) /\
  (dataDestroyed data = true -> loadState players' guildId = None) /\
  (dataDestroyed data = false ->
   exists d,
     loadState players' guildId = Some d /\
     botId d = dataBotId data /\
     voiceChannelId d = dataVoiceChannelId data /\
     textChannelId d = dataTextChannelId data /\
     volume d = dataVolume data /\ loopMode d = dataLoopMode data /\
     paused d = dataPaused data /\
     twentyFourSeven d = dataTwentyFourSeven data /\
     autoPlay d = dataAutoPlay data /\ position d = dataPosition data /\
     currentTrack d = dataCurrentTrack data /\ queue d = dataQueue data /\
     lastUpdated d = now /\
     previousTracks d =
       match players !! guildId with
       | Some old => previousTracks old
       | None => []
       end).
Proof.
  cbv zeta. unfold saveState.
  destruct (keptFields noFilters (players !! guildId))
    as [[[[previous message] requester] filt] session] eqn:Hkept.
  split; [|split].
  - intros g Hne. by rewrite lookup_insert_ne.
  - intros Hd. unfold loadState. rewrite lookup_insert_eq. simpl. by rewrite Hd.
  - intros Hd. eexists. unfold loadState. rewrite lookup_insert_eq. simpl.
    rewrite Hd. split; [reflexivity|]. simpl. repeat split.
    unfold keptFields in Hkept. destruct (players !! guildId); congruence.
Qed.

(** After [markDestroyed] the guild's state is not loaded any more and the
    guild is no longer among the active players of any bot; no document is
    created or removed and no other guild's document changes; the marked
    document loses queue, current track and position and keeps its bot,
    history and 24/7 flag. *)
Theorem markDestroyed_hides_state players (now : Z) (guildId : string) :
  let players' := markDestroyed players now guildId in
  loadState players' guildId = None /\
  dom players' = dom players /\
  (forall g, g <> guildId -> players' !! g = players !! g) /\
  (forall bot, findActiveByBot players' bot
               = delete guildId (findActiveByBot players bot)) /\
  (forall d, players !! guildId = Some d ->
     exists d', players' !! guildId = Some d' /\
       destroyed d' = true /\ queue d' = [] /\ currentTrack d' = None /\
       position d' = 0 /\ lastUpdated d' = now /\
       botId d' = botId d /\ previousTracks d' = previousTracks d /\
       twentyFourSeven d' = twentyFourSeven d).
Proof.
  cbv zeta. unfold markDestroyed, loadState.
  destruct (players !! guildId) as [d|] eqn:Hd.
  - rewrite lookup_insert_eq. simpl. repeat split.
    + apply set_eq. intros g. rewrite !elem_of_dom.
      destruct (decide (g = guildId)) as [->|Hne].
      * rewrite lookup_insert_eq, Hd. by split.
      * by rewrite lookup_insert_ne.
    + intros g Hne. by rewrite lookup_insert_ne.
    + intros bot. unfold findActiveByBot. apply map_eq. intros g.
      destruct (decide (g = guildId)) as [->|Hne].
      * rewrite lookup_delete_eq. apply map_lookup_filter_None. right.
        intros d'. rewrite lookup_insert_eq. intros [= <-]. simpl.
        intros [_ ?]. done.
      * rewrite lookup_delete_ne by done.
        rewrite !map_lookup_filter. by rewrite lookup_insert_ne.
    + intros d0 [= <-]. eexists. split; [reflexivity|]. by simpl.
  - rewrite Hd. repeat split; try done.
    intros bot. symmetry. apply delete_id.
    unfold findActiveByBot. apply map_lookup_filter_None. by left.
Qed.

(** [cleanupDestroyed] is invisible to [loadState] and [findActiveByBot]:
    it deletes no live document.  A document marked destroyed at [t] is
    deleted by a cleanup at [now] exactly when [t] is before
    [now - olderThan] (one day by default). *)
Theorem cleanup_removes_only_expired_destroyed players (now : Z)
    (olderThan : option Z) :
  let players' := cleanupDestroyed players now olderThan in
  (forall g, loadState players' g = loadState players g) /\
  (forall bot, findActiveByBot players' bot = findActiveByBot players bot) /\
  (forall g d (t : Z),
     players !! g = Some d ->
     (cleanupDestroyed (markDestroyed players t g) now olderThan !! g = None
      <-> t < now - default 86400000 olderThan)).
Proof.
  cbv zeta. unfold cleanupDestroyed. split; [|split].
  - intros g. unfold loadState. rewrite map_lookup_filter.
    destruct (players !! g) as [d|]; simpl; [|done].
    destruct (destroyed d) eqn:Hd.
    + case_guard; simpl; [by rewrite Hd|done].
    + rewrite option_guard_True; [simpl; by rewrite Hd|].
      simpl. intros [? _]. congruence.
  - intros bot. unfold findActiveByBot. apply map_eq. intros g.
    rewrite !map_lookup_filter.
    destruct (players !! g) as [d|]; simpl; [|done].
    case_guard as Hkeep; simpl; [done|].
    rewrite option_guard_False; [done|]. simpl. simpl in Hkeep.
    intros [_ Hlive]. destruct Hkeep as [Hdead _]. congruence.
  - intros g d t Hd. unfold markDestroyed. rewrite Hd.
    rewrite map_lookup_filter, lookup_insert_eq. simpl.
    case_guard as Hkeep; simpl in *; split; try done.
    + intros Hlt. exfalso. apply Hkeep. by split.
    + intros _. by destruct Hkeep as [_ Hlt].
Qed.




End Extras.


End PlayerStoreExtras.

(** ** The assignment queries of the load balancer *)

Module AssignmentQueryExtras.
Import Cluster LoadBalancer LoadBalancerFacts SelectionFacts.

(** The assignment queries follow the record and ignore its activity.
    [getAssignedBot] returns the recorded owner exactly when that bot is in
    the cluster and ready, and [isAssignedToBot] is then true for that bot
    and no other; [releaseBot] changes no answer of [isAssignedToBot]; and
    after an [assignBot] that returned a bot, [isAssignedToBot] is true for
    the owner recorded before the call if the guild had a row, and for the
    returned bot only if it had none. *)
Theorem assignment_queries_follow_record
    (botCluster : list (string * BotClient))
    (store : gmap string GuildAssignment.Assignment) (now : Z) (g : string) :
  (forall r, getAssignedBot botCluster store g = Some r ->
     (forall bot, isAssignedToBot store g bot = true <-> bot = assignedBot r) /\
     (assignedBot r, assignedClient r) ∈ botCluster /\
     isReady (assignedClient r) = true /\
     store !! g = Some (assignment r)) /\
  (getAssignedBot botCluster store g = None <->
     store !! g = None \/
     exists a, store !! g = Some a /\
       forall c, get botCluster (GuildAssignment.assignedBotId a) = Some c ->
                 isReady c = false) /\
  (forall bot,
     isAssignedToBot (releaseBot store now g) g bot = isAssignedToBot store g bot) /\
  (forall options r,
     (assignBot options botCluster store now g).1.1 = Some r ->
     forall bot,
       isAssignedToBot (assignBot options botCluster store now g).1.2 g bot = true
       <-> bot = match store !! g with
                 | Some a => GuildAssignment.assignedBotId a
                 | None => assignedBot r
                 end).
Proof.
  unfold getAssignedBot, isAssignedToBot, releaseBot, GuildAssignment.findById,
    GuildAssignment.save.
  split; [|split; [|split]].
  - intros r Hr. destruct (store !! g) as [a|] eqn:Hg; [|done].
    destruct (get botCluster (GuildAssignment.assignedBotId a)) as [c|] eqn:Hget;
      [|done].
    destruct (isReady c) eqn:Hready; [|done].
    injection Hr as <-. simpl. repeat split; try done.
    + intros Hb. by apply bool_decide_eq_true in Hb.
    + intros ->. by apply bool_decide_eq_true.
    + by apply get_elem_of.
  - destruct (store !! g) as [a|] eqn:Hg; [|by split; [left|]].
    destruct (get botCluster (GuildAssignment.assignedBotId a)) as [c|] eqn:Hget.
    + destruct (isReady c) eqn:Hready.
      * split; [done|]. intros [?|(a0 & [= <-] & Hc)]; [done|].
        specialize (Hc c Hget). congruence.
      * split; [|done]. intros _. right. exists a. split; [done|].
        intros c0. rewrite Hget. by intros [= <-].
    + split; [|done]. intros _. right. exists a. split; [done|].
      intros c0. by rewrite Hget.
  - intros bot. destruct (store !! g) as [a|] eqn:Hg.
    + by rewrite lookup_insert_eq.
    + by rewrite Hg.
  - intros options r. unfold assignBot, GuildAssignment.findById.
    destruct (stickyOwner botCluster (store !! g)) as [[a c]|] eqn:Hsticky.
    + apply stickyOwner_Some in Hsticky as (Hg & _). rewrite Hg. simpl.
      intros _ bot. unfold GuildAssignment.save. rewrite lookup_insert_eq. simpl.
      split; [by intros ?%bool_decide_eq_true|by intros ->; apply bool_decide_eq_true].
    + destruct (_selectBot options botCluster) as [[sid sc]|]; [|done].
      unfold GuildAssignment.getOrCreateAssignment, GuildAssignment.findById.
      destruct (store !! g) as [a|] eqn:Hg; simpl.
      * intros _ bot. rewrite Hg.
        split; [by intros ?%bool_decide_eq_true|by intros ->; apply bool_decide_eq_true].
      * intros [= <-] bot. simpl.
        unfold GuildAssignment.save. rewrite ?lookup_insert_eq. simpl.
        split; [by intros ?%bool_decide_eq_true|by intros ->; apply bool_decide_eq_true].
Qed.

End AssignmentQueryExtras.
